(** * jojq interception proxy

    A shallow embedding of the proxy subsystem of jojq: the capture pipeline,
    the bounded capture buffer, the interactive mode and the handling of
    CONNECT of [ProxyServer] (lib/proxy.js), and the CA and the
    leaf-certificate cache of [CertificateManager] (lib/certs.js).

    Conventions of the embedding.
    - A JavaScript string and a Node [Buffer] are both a [string]: one
      character per byte.  Node decodes a body as UTF-8 before the code
      measures it with [.length]; on ASCII payloads that length is the
      number of bytes, which is also how the code reports it ("Size: n bytes").
    - Objects used as dictionaries (HTTP headers, the certificate cache) are
      [gmap string _].
    - A method that mutates [this] is a function from the state to the new
      state; a listener that may throw returns an [Outcome].
    - What the platform provides (JSON.parse, JSON.stringify, the zlib
      decompressors) is the class [Runtime]; the general statements hold
      for every instance.  [ReferenceRuntime] is an executable instance, for
      the statements that run the code on a concrete exchange. *)

From Stdlib Require Import ZArith QArith String Ascii List Lia.
From stdpp Require Import base option list gmap strings pretty.

Local Open Scope string_scope.
Local Open Scope list_scope.
Local Open Scope nat_scope.

(** ** JavaScript strings *)

Module JS.

(** [s.includes(sub)] *)
Fixpoint includes (s sub : string) : bool :=
  String.prefix sub s ||
  match s with
  | EmptyString => false
  | String _ s' => includes s' sub
  end.

(** Truthiness of a string: only the empty string is falsy. *)
Definition truthy (s : string) : bool :=
  match s with
  | EmptyString => false
  | String _ _ => true
  end.

(** [a || b] on an optional string property: [undefined] and [''] give [b]. *)
Definition or_else (a : option string) (b : string) : string :=
  match a with
  | Some v => if truthy v then v else b
  | None => b
  end.

(** [s.substring(0, n)] *)
Fixpoint substring0 (n : nat) (s : string) : string :=
  match n, s with
  | S n', String c s' => String c (substring0 n' s')
  | _, _ => EmptyString
  end.

(** [acc += chunk] over the chunks of a stream, and [Buffer.concat(chunks)]. *)
Definition concat (chunks : list string) : string :=
  fold_left (fun acc chunk => acc +:+ chunk) chunks "".

(** White space that fits one byte: TAB, LF, VT, FF, CR and the space. *)
Definition isWhiteSpace (c : ascii) : bool :=
  let n := N_of_ascii c in ((n =? 32) || ((9 <=? n) && (n <=? 13)))%N.

Fixpoint trimStart (s : string) : string :=
  match s with
  | String c s' => if isWhiteSpace c then trimStart s' else s
  | EmptyString => EmptyString
  end.

Fixpoint trimEnd (s : string) : string :=
  match s with
  | String c s' =>
      match trimEnd s' with
      | EmptyString => if isWhiteSpace c then EmptyString else String c EmptyString
      | t => String c t
      end
  | EmptyString => EmptyString
  end.

(** [s.trim()] *)
Definition trim (s : string) : string := trimEnd (trimStart s).






(** [s.split(sep)] for a separator of one character: the first piece and
    the pieces after it. *)
Fixpoint split (sep : ascii) (s : string) : string * list string :=
  match s with
  | String c s' =>
      let '(piece, pieces) := split sep s' in
      if Ascii.eqb c sep then (EmptyString, piece :: pieces)
      else (String c piece, pieces)
  | EmptyString => (EmptyString, [])
  end.

End JS.

(** ** JSON values *)

#[warnings="-register-all"]
Inductive JSON : Type :=
| JNull
| JBool (b : bool)
| JNumber (lexeme : string)
| JString (s : string)
| JArray (items : list JSON)
| JObject (members : list (string * JSON)).

(** ** The platform *)

Class Runtime := {
  (** [JSON.parse(text)]; [None] when it throws a SyntaxError. *)
  JSON_parse : string -> option JSON;
  (** [JSON.stringify(value)] *)
  JSON_stringify : JSON -> string;
  (** [stream.pipe(zlib.createGunzip())] and its siblings, on the whole
      body: the decoded bytes, or [None] when the stream emits 'error'. *)
  zlib_gunzip : string -> option string;
  zlib_inflate : string -> option string;
  zlib_brotliDecompress : string -> option string
}.

(** ** A reference runtime

    An executable instance of [Runtime], so that the handlers can be run on
    concrete exchanges: a reader and a printer for the JSON grammar
    (RFC 8259), and decoders for stored gzip and zlib streams.  Numbers keep
    their lexeme; a [\uXXXX] escape is stored as the UTF-8 bytes of its code
    unit. *)

Module JsonText.

Definition is_ws (c : ascii) : bool :=
  match c with
  | " "%char | "009"%char | "010"%char | "013"%char => true
  | _ => false
  end.

Fixpoint skip_ws (s : string) : string :=
  match s with
  | String c s' => if is_ws c then skip_ws s' else s
  | EmptyString => EmptyString
  end.

Definition is_digit (c : ascii) : bool :=
  let n := N_of_ascii c in ((48 <=? n) && (n <=? 57))%N.

Fixpoint span_digits (s : string) : string * string :=
  match s with
  | String c s' =>
      if is_digit c
      then let '(ds, rest) := span_digits s' in (String c ds, rest)
      else (EmptyString, s)
  | EmptyString => (EmptyString, EmptyString)
  end.

(** A number: optional minus, integer part without a leading zero, optional
    fraction, optional exponent.  Returns the lexeme and the rest of the
    input. *)
Definition number (s : string) : option (string * string) :=
  let '(sign, s1) :=
    match s with
    | String "-"%char r => ("-", r)
    | _ => ("", s)
    end in
  let '(int, s2) := span_digits s1 in
  match int with
  | EmptyString => None
  | String "0"%char (String _ _) => None
  | _ =>
      frac ← match s2 with
             | String "."%char r =>
                 let '(ds, r') := span_digits r in
                 match ds with
                 | EmptyString => None
                 | _ => Some ("." +:+ ds, r')
                 end
             | _ => Some ("", s2)
             end;
      let '(fr, s3) := frac in
      ex ← match s3 with
           | String e r =>
               if (Ascii.eqb e "e" || Ascii.eqb e "E")%bool then
                 let '(sg, r1) :=
                   match r with
                   | String "+"%char r' => ("+", r')
                   | String "-"%char r' => ("-", r')
                   | _ => ("", r)
                   end in
                 let '(ds, r2) := span_digits r1 in
                 match ds with
                 | EmptyString => None
                 | _ => Some (String e sg +:+ ds, r2)
                 end
               else Some ("", s3)
           | EmptyString => Some ("", s3)
           end;
      let '(exl, s4) := ex in
      Some (sign +:+ int +:+ fr +:+ exl, s4)
  end.

Definition hex_digit (c : ascii) : option N :=
  let n := N_of_ascii c in
  if ((48 <=? n) && (n <=? 57))%N then Some (n - 48)%N
  else if ((65 <=? n) && (n <=? 70))%N then Some (n - 55)%N
  else if ((97 <=? n) && (n <=? 102))%N then Some (n - 87)%N
  else None.

(** UTF-8 bytes of a 16-bit code unit. *)
Definition utf8 (u : N) : string :=
  if (u <? 128)%N then String (ascii_of_N u) ""
  else if (u <? 2048)%N then
    String (ascii_of_N (192 + u / 64)) (String (ascii_of_N (128 + u mod 64)) "")
  else
    String (ascii_of_N (224 + u / 4096))
      (String (ascii_of_N (128 + (u / 64) mod 64))
         (String (ascii_of_N (128 + u mod 64)) "")).

Definition dquote : ascii := ascii_of_N 34.
Definition backslash : ascii := ascii_of_N 92.

(** The characters of a string literal after its opening quote. *)
Fixpoint string_body (s : string) : option (string * string) :=
  match s with
  | EmptyString => None
  | String c rest =>
      if Ascii.eqb c dquote then Some ("", rest)
      else if Ascii.eqb c backslash then
        match rest with
        | EmptyString => None
        | String e rest' =>
            let simple (x : ascii) :=
              '(cs, r) ← string_body rest'; Some (String x cs, r) in
            if Ascii.eqb e dquote then simple dquote
            else if Ascii.eqb e backslash then simple backslash
            else
              match e with
              | "/"%char => simple "/"%char
              | "b"%char => simple "008"%char
              | "f"%char => simple "012"%char
              | "n"%char => simple "010"%char
              | "r"%char => simple "013"%char
              | "t"%char => simple "009"%char
              | "u"%char =>
                  match rest' with
                  | String h1 (String h2 (String h3 (String h4 rest''))) =>
                      d1 ← hex_digit h1; d2 ← hex_digit h2;
                      d3 ← hex_digit h3; d4 ← hex_digit h4;
                      '(cs, r) ← string_body rest'';
                      Some (utf8 (d1 * 4096 + d2 * 256 + d3 * 16 + d4)%N +:+ cs, r)
                  | _ => None
                  end
              | _ => None
              end
        end
      else if (N_of_ascii c <? 32)%N then None
      else '(cs, r) ← string_body rest; Some (String c cs, r)
  end.

Fixpoint strip_prefix (p s : string) : option string :=
  match p, s with
  | EmptyString, _ => Some s
  | String a p', String b s' => if Ascii.eqb a b then strip_prefix p' s' else None
  | String _ _, EmptyString => None
  end.

(** The rest of an array after an item has been read: further items, each
    after a comma, up to the closing bracket. *)
Fixpoint more_items (value : string -> option (JSON * string)) (n : nat)
    (acc : list JSON) (s : string) : option (list JSON * string) :=
  match n with
  | O => None
  | S n' =>
      match skip_ws s with
      | String "]"%char rest => Some (rev acc, rest)
      | String ","%char rest =>
          '(v, r) ← value rest; more_items value n' (v :: acc) r
      | _ => None
      end
  end.

Definition member (value : string -> option (JSON * string)) (s : string)
    : option ((string * JSON) * string) :=
  match skip_ws s with
  | String c rest =>
      if Ascii.eqb c dquote then
        '(k, r) ← string_body rest;
        match skip_ws r with
        | String ":"%char r' => '(v, r'') ← value r'; Some ((k, v), r'')
        | _ => None
        end
      else None
  | EmptyString => None
  end.

Fixpoint more_members (value : string -> option (JSON * string)) (n : nat)
    (acc : list (string * JSON)) (s : string)
    : option (list (string * JSON) * string) :=
  match n with
  | O => None
  | S n' =>
      match skip_ws s with
      | String "}"%char rest => Some (rev acc, rest)
      | String ","%char rest =>
          '(kv, r) ← member value rest; more_members value n' (kv :: acc) r
      | _ => None
      end
  end.

Fixpoint value (fuel : nat) (s : string) : option (JSON * string) :=
  match fuel with
  | O => None
  | S fuel' =>
      match skip_ws s with
      | String "n"%char _ => r ← strip_prefix "null" (skip_ws s); Some (JNull, r)
      | String "t"%char _ => r ← strip_prefix "true" (skip_ws s); Some (JBool true, r)
      | String "f"%char _ => r ← strip_prefix "false" (skip_ws s); Some (JBool false, r)
      | String "["%char rest =>
          match skip_ws rest with
          | String "]"%char r => Some (JArray [], r)
          | _ =>
              '(v, r) ← value fuel' rest;
              '(vs, r') ← more_items (value fuel') fuel' [v] r;
              Some (JArray vs, r')
          end
      | String "{"%char rest =>
          match skip_ws rest with
          | String "}"%char r => Some (JObject [], r)
          | _ =>
              '(kv, r) ← member (value fuel') rest;
              '(kvs, r') ← more_members (value fuel') fuel' [kv] r;
              Some (JObject kvs, r')
          end
      | String c rest =>
          if Ascii.eqb c dquote then '(cs, r) ← string_body rest; Some (JString cs, r)
          else '(lex, r) ← number (skip_ws s); Some (JNumber lex, r)
      | EmptyString => None
      end
  end.

Definition parse (text : string) : option JSON :=
  '(v, rest) ← value (S (String.length text)) text;
  match skip_ws rest with
  | EmptyString => Some v
  | _ => None
  end.

Definition hex_char (n : N) : ascii :=
  if (n <? 10)%N then ascii_of_N (48 + n) else ascii_of_N (87 + n).

Fixpoint quote_chars (s : string) : string :=
  match s with
  | EmptyString => EmptyString
  | String c s' =>
      let n := N_of_ascii c in
      (if Ascii.eqb c dquote then String backslash (String dquote "")
       else if Ascii.eqb c backslash then String backslash (String backslash "")
       else if (n <? 32)%N then
         String backslash "u00" +:+
         String (hex_char (n / 16)) (String (hex_char (n mod 16)) "")
       else String c "") +:+ quote_chars s'
  end.

Definition quote (s : string) : string :=
  String dquote (quote_chars s) +:+ String dquote "".

(** A JSON text written with apostrophes for its double quotes. *)
Fixpoint text (s : string) : string :=
  match s with
  | EmptyString => EmptyString
  | String c s' => String (if Ascii.eqb c "'" then dquote else c) (text s')
  end.

Fixpoint join (sep : string) (parts : list string) : string :=
  match parts with
  | [] => ""
  | [p] => p
  | p :: ps => p +:+ sep +:+ join sep ps
  end.

Fixpoint print (v : JSON) : string :=
  match v with
  | JNull => "null"
  | JBool true => "true"
  | JBool false => "false"
  | JNumber lexeme => lexeme
  | JString s => quote s
  | JArray items => "[" +:+ join "," (map print items) +:+ "]"
  | JObject members =>
      "{" +:+ join "," (map (fun kv => quote (fst kv) +:+ ":" +:+ print (snd kv)) members)
          +:+ "}"
  end.

End JsonText.

(** Decoders for the gzip (RFC 1952) and zlib (RFC 1950) containers whose
    deflate stream is made of stored blocks only.  A stream with optional
    header fields, with compressed blocks, with a wrong check value or with
    trailing bytes is reported as an error; there is no Brotli decoder. *)

Module Zlib.

Definition byte (c : ascii) : Z := Z.of_N (N_of_ascii c).

Definition of_bytes (l : list Z) : string :=
  string_of_list_ascii (map (fun b => ascii_of_N (Z.to_N b)) l).

(** The first [n] bytes and the rest. *)
Fixpoint take (n : nat) (s : string) : option (string * string) :=
  match n, s with
  | O, _ => Some ("", s)
  | S n', String c s' => '(d, r) ← take n' s'; Some (String c d, r)
  | S _, EmptyString => None
  end.

(** Stored blocks up to the final one: the data and the rest. *)
Fixpoint stored_blocks (fuel : nat) (s : string) : option (string * string) :=
  match fuel with
  | O => None
  | S fuel' =>
      match s with
      | String hd (String l0 (String l1 (String n0 (String n1 rest)))) =>
          let len := (byte l0 + 256 * byte l1)%Z in
          let nlen := (byte n0 + 256 * byte n1)%Z in
          if negb (Z.land (byte hd) 6 =? 0)%Z then None
          else if negb (len + nlen =? 65535)%Z then None
          else
            '(data, rest') ← take (Z.to_nat len) rest;
            if Z.odd (byte hd) then Some (data, rest')
            else '(more, rest'') ← stored_blocks fuel' rest';
                 Some (data +:+ more, rest'')
      | _ => None
      end
  end.

Definition crc32_bit (x : Z) : Z :=
  Z.lxor (Z.shiftr x 1) (if Z.odd x then 3988292384 else 0).

Definition crc32_byte (crc : Z) (c : ascii) : Z :=
  crc32_bit (crc32_bit (crc32_bit (crc32_bit (crc32_bit (crc32_bit (crc32_bit
    (crc32_bit (Z.lxor crc (byte c))))))))).

Definition crc32 (s : string) : Z :=
  Z.lxor (fold_left crc32_byte (list_ascii_of_string s) 4294967295%Z) 4294967295.

Definition adler32 (s : string) : Z :=
  let '(a, b) :=
    fold_left (fun ab c =>
                 let a := ((fst ab + byte c) mod 65521)%Z in
                 (a, ((snd ab + a) mod 65521)%Z))
      (list_ascii_of_string s) (1%Z, 0%Z) in
  (b * 65536 + a)%Z.

Definition gunzip (s : string) : option string :=
  match s with
  | String id1 (String id2 (String cm (String flg (String _ (String _ (String _
      (String _ (String _ (String _ deflate))))))))) =>
      if negb ((byte id1 =? 31) && (byte id2 =? 139) && (byte cm =? 8) &&
               (byte flg =? 0))%Z
      then None
      else
        '(data, trailer) ← stored_blocks (String.length deflate) deflate;
        match trailer with
        | String c0 (String c1 (String c2 (String c3
            (String s0 (String s1 (String s2 (String s3 EmptyString))))))) =>
            let crc := (byte c0 + 256 * (byte c1 + 256 * (byte c2 + 256 * byte c3)))%Z in
            let isize := (byte s0 + 256 * (byte s1 + 256 * (byte s2 + 256 * byte s3)))%Z in
            if ((crc =? crc32 data) &&
                (isize =? Z.of_nat (String.length data) mod 4294967296))%Z
            then Some data else None
        | _ => None
        end
  | _ => None
  end.

Definition inflate (s : string) : option string :=
  match s with
  | String cmf (String flg deflate) =>
      if negb ((Z.land (byte cmf) 15 =? 8) &&
               ((256 * byte cmf + byte flg) mod 31 =? 0) &&
               (Z.land (byte flg) 32 =? 0))%Z
      then None
      else
        '(data, trailer) ← stored_blocks (String.length deflate) deflate;
        match trailer with
        | String a3 (String a2 (String a1 (String a0 EmptyString))) =>
            let sum := (byte a0 + 256 * (byte a1 + 256 * (byte a2 + 256 * byte a3)))%Z in
            if (sum =? adler32 data)%Z then Some data else None
        | _ => None
        end
  | _ => None
  end.

End Zlib.

#[export] Instance ReferenceRuntime : Runtime := {
  JSON_parse := JsonText.parse;
  JSON_stringify := JsonText.print;
  zlib_gunzip := Zlib.gunzip;
  zlib_inflate := Zlib.inflate;
  zlib_brotliDecompress := fun _ => None
}.

(** ** Exceptions *)

Inductive Exception : Type :=
| TypeError (message : string)
| ERR_HTTP_HEADERS_SENT.

(** ** Dates

    A [Date] is held by its local calendar fields: [month] counts from 0 and
    [time] is the number of milliseconds since the start of the day. *)

Module Date.

Record t : Type := { year : Z; month : Z; date : Z; time : Z }.

Definition isLeapYear (y : Z) : bool :=
  ((y mod 4 =? 0) && negb (y mod 100 =? 0) || (y mod 400 =? 0))%Z.

Definition getFullYear (d : t) : Z := year d.

(** [d.setFullYear(y)] keeps the month, the day and the time of day.  A day
    that the month does not have in year [y] is carried into the next month;
    with the other fields kept that is 29 February only. *)
Definition setFullYear (y : Z) (d : t) : t :=
  if ((month d =? 1) && (date d =? 29))%Z && negb (isLeapYear y)
  then {| year := y; month := 2; date := 1; time := time d |}
  else {| year := y; month := month d; date := date d; time := time d |}.

End Date.

(** ** node-forge: keys and X.509 certificates *)

Module forge.

Record PublicKey : Type := { pub_n : Z; pub_e : Z }.
Record PrivateKey : Type := { priv_n : Z; priv_e : Z; priv_d : Z }.
Record KeyPair : Type := { privateKey : PrivateKey; publicKey : PublicKey }.

(** An attribute of a distinguished name: [{name | shortName, value}]. *)
Record Attribute : Type :=
  { name : option string; shortName : option string; value : string }.

Definition byName (n v : string) : Attribute :=
  {| name := Some n; shortName := None; value := v |}.
Definition byShortName (n v : string) : Attribute :=
  {| name := None; shortName := Some n; value := v |}.

(** The flags of an extension object; a flag that the object does not list
    is [false]. *)
Record KeyUsage : Type := {
  keyCertSign : bool; digitalSignature : bool; nonRepudiation : bool;
  keyEncipherment : bool; dataEncipherment : bool
}.

Record ExtKeyUsage : Type := {
  serverAuth : bool; clientAuth : bool; codeSigning : bool;
  emailProtection : bool; timeStamping : bool
}.

(** An entry of [altNames]: [{type, value}]; type 2 is a DNS name. *)
Record AltName : Type := { altType : Z; altValue : string }.

Inductive Extension : Type :=
| basicConstraints (cA : bool)
| keyUsage (flags : KeyUsage)
| extKeyUsage (flags : ExtKeyUsage)
| subjectAltName (altNames : list AltName).

Definition extensionName (e : Extension) : string :=
  match e with
  | basicConstraints _ => "basicConstraints"
  | keyUsage _ => "keyUsage"
  | extKeyUsage _ => "extKeyUsage"
  | subjectAltName _ => "subjectAltName"
  end.

Record Signature : Type := { signer : PrivateKey; digest : string }.

Record Certificate : Type := {
  certPublicKey : option PublicKey;
  serialNumber : string;
  notBefore : Date.t;
  notAfter : Date.t;
  subject : list Attribute;
  issuer : list Attribute;
  extensions : list Extension;
  signature : option Signature
}.

(** [forge.pki.createCertificate()]: both validity dates are the time of
    creation, the names and the extensions are empty. *)
Definition createCertificate (created : Date.t) : Certificate :=
  {| certPublicKey := None; serialNumber := "00";
     notBefore := created; notAfter := created;
     subject := []; issuer := []; extensions := []; signature := None |}.

Definition set_publicKey (k : PublicKey) (c : Certificate) : Certificate :=
  {| certPublicKey := Some k; serialNumber := serialNumber c;
     notBefore := notBefore c; notAfter := notAfter c;
     subject := subject c; issuer := issuer c;
     extensions := extensions c; signature := signature c |}.

Definition set_serialNumber (n : string) (c : Certificate) : Certificate :=
  {| certPublicKey := certPublicKey c; serialNumber := n;
     notBefore := notBefore c; notAfter := notAfter c;
     subject := subject c; issuer := issuer c;
     extensions := extensions c; signature := signature c |}.

Definition set_notBefore (d : Date.t) (c : Certificate) : Certificate :=
  {| certPublicKey := certPublicKey c; serialNumber := serialNumber c;
     notBefore := d; notAfter := notAfter c;
     subject := subject c; issuer := issuer c;
     extensions := extensions c; signature := signature c |}.

Definition set_notAfter (d : Date.t) (c : Certificate) : Certificate :=
  {| certPublicKey := certPublicKey c; serialNumber := serialNumber c;
     notBefore := notBefore c; notAfter := d;
     subject := subject c; issuer := issuer c;
     extensions := extensions c; signature := signature c |}.

Definition setSubject (attrs : list Attribute) (c : Certificate) : Certificate :=
  {| certPublicKey := certPublicKey c; serialNumber := serialNumber c;
     notBefore := notBefore c; notAfter := notAfter c;
     subject := attrs; issuer := issuer c;
     extensions := extensions c; signature := signature c |}.

Definition setIssuer (attrs : list Attribute) (c : Certificate) : Certificate :=
  {| certPublicKey := certPublicKey c; serialNumber := serialNumber c;
     notBefore := notBefore c; notAfter := notAfter c;
     subject := subject c; issuer := attrs;
     extensions := extensions c; signature := signature c |}.

Definition setExtensions (exts : list Extension) (c : Certificate) : Certificate :=
  {| certPublicKey := certPublicKey c; serialNumber := serialNumber c;
     notBefore := notBefore c; notAfter := notAfter c;
     subject := subject c; issuer := issuer c;
     extensions := exts; signature := signature c |}.

Definition sign (k : PrivateKey) (md : string) (c : Certificate) : Certificate :=
  {| certPublicKey := certPublicKey c; serialNumber := serialNumber c;
     notBefore := notBefore c; notAfter := notAfter c;
     subject := subject c; issuer := issuer c;
     extensions := extensions c;
     signature := Some {| signer := k; digest := md |} |}.

(** [cert.getExtension(name)]: the first extension of that name. *)
Definition getExtension (n : string) (c : Certificate) : option Extension :=
  List.find (fun e => String.eqb (extensionName e) n) (extensions c).

(** A PEM text is held by the object it encodes. *)
Inductive Pem (A : Type) : Type := toPem (a : A).
Arguments toPem {A} a.

Definition fromPem {A : Type} (p : Pem A) : A := match p with toPem a => a end.

End forge.

(** ** CertificateManager (lib/certs.js) *)

Module CertificateManager.
Import forge.

(** What [generateCertForHost] returns and caches: [{key, cert}], both PEM. *)
Record Leaf : Type := { key : Pem PrivateKey; cert : Pem Certificate }.

Record t : Type := {
  certDir : string;
  caKeyPath : string;
  caCertPath : string;
  cache : gmap string Leaf;
  caKey : option PrivateKey;
  caCert : option Certificate
}.

Definition path_join (dir file : string) : string := dir +:+ "/" +:+ file.

(** [new CertificateManager()] *)
Definition constructor (homedir : string) : t :=
  let certDir := path_join (path_join homedir ".jojq") "certs" in
  {| certDir := certDir;
     caKeyPath := path_join certDir "ca-key.pem";
     caCertPath := path_join certDir "ca-cert.pem";
     cache := ∅;
     caKey := None;
     caCert := None |}.

(** What one call reads from its environment: the key pair that
    [forge.pki.rsa.generateKeyPair(2048)] draws, the clock at
    [createCertificate()], the value of [Date.now()] and the two [new Date()]
    of the validity. *)
Record Env : Type := {
  generateKeyPair : KeyPair;
  created : Date.t;
  DateNow : Z;
  newDate1 : Date.t;
  newDate2 : Date.t
}.

(** The two PEM files of the CA: absent, unreadable as PEM, or holding an
    object. *)
Inductive File (A : Type) : Type :=
| Absent
| Corrupt
| Holds (a : A).
Arguments Absent {A}.
Arguments Corrupt {A}.
Arguments Holds {A} a.

Record Disk : Type := { keyFile : File PrivateKey; certFile : File Certificate }.

Definition existsSync {A : Type} (f : File A) : bool :=
  match f with
  | Absent => false
  | _ => true
  end.

Definition caAttrs : list Attribute :=
  [ byName "commonName" "jojq Root CA";
    byName "countryName" "US";
    byShortName "ST" "Development";
    byName "localityName" "Local";
    byName "organizationName" "jojq Development";
    byShortName "OU" "jojq Proxy" ].

(** [promptForCertLocation]: the directory chosen by the operator's answer. *)
Definition promptForCertLocation (homedir answer : string) (m : t) : string :=
  let defaultPath := certDir m in
  let desktopPath := path_join (path_join homedir "Desktop") "jojq-certs" in
  if String.eqb answer "2" then desktopPath else defaultPath.

(** [loadOrGenerateCA]; [answer] is the trimmed answer to the prompt, read
    only when a CA is generated. *)
Definition loadOrGenerateCA (homedir answer : string) (env : Env) (disk : Disk)
    (m : t) : t * Disk :=
  let generate (m : t) :=
    let chosenPath := promptForCertLocation homedir answer m in
    let keys := generateKeyPair env in
    let cert := createCertificate (created env) in
    let cert := set_publicKey (publicKey keys) cert in
    let cert := set_serialNumber "01" cert in
    let cert := set_notBefore (newDate1 env) cert in
    let cert := set_notAfter (newDate2 env) cert in
    let cert :=
      set_notAfter
        (Date.setFullYear (Date.getFullYear (notBefore cert) + 10) (notAfter cert))
        cert in
    let cert := setSubject caAttrs cert in
    let cert := setIssuer caAttrs cert in
    let cert :=
      setExtensions
        [ basicConstraints true;
          keyUsage {| keyCertSign := true; digitalSignature := true;
                      nonRepudiation := true; keyEncipherment := true;
                      dataEncipherment := true |};
          extKeyUsage {| serverAuth := true; clientAuth := true;
                         codeSigning := true; emailProtection := true;
                         timeStamping := true |} ] cert in
    let cert := sign (privateKey keys) "sha256" cert in
    ({| certDir := chosenPath;
        caKeyPath := path_join chosenPath "ca-key.pem";
        caCertPath := path_join chosenPath "ca-cert.pem";
        cache := cache m;
        caKey := Some (privateKey keys);
        caCert := Some cert |},
     {| keyFile := Holds (privateKey keys); certFile := Holds cert |}) in
  if existsSync (keyFile disk) && existsSync (certFile disk) then
    match keyFile disk with
    | Holds k =>
        (* this.caKey is assigned before the certificate is parsed *)
        let m1 := {| certDir := certDir m; caKeyPath := caKeyPath m;
                     caCertPath := caCertPath m; cache := cache m;
                     caKey := Some k; caCert := caCert m |} in
        match certFile disk with
        | Holds c =>
            ({| certDir := certDir m1; caKeyPath := caKeyPath m1;
                caCertPath := caCertPath m1; cache := cache m1;
                caKey := caKey m1; caCert := Some c |}, disk)
        | _ => generate m1
        end
    | _ => generate m
    end
  else generate m.

Definition set_cache (c : gmap string Leaf) (m : t) : t :=
  {| certDir := certDir m; caKeyPath := caKeyPath m; caCertPath := caCertPath m;
     cache := c; caKey := caKey m; caCert := caCert m |}.

(** [generateCertForHost(hostname)]: the returned value, or the exception,
    and the manager afterwards. *)
Definition generateCertForHost (hostname : string) (env : Env) (m : t)
    : (Exception + Leaf) * t :=
  match cache m !! hostname with
  | Some cached => (inr cached, m)
  | None =>
      let keys := generateKeyPair env in
      let cert := createCertificate (created env) in
      let cert := set_publicKey (publicKey keys) cert in
      let cert := set_serialNumber (pretty (DateNow env)) cert in
      let cert := set_notBefore (newDate1 env) cert in
      let cert := set_notAfter (newDate2 env) cert in
      let cert :=
        set_notAfter
          (Date.setFullYear (Date.getFullYear (notBefore cert) + 1) (notAfter cert))
          cert in
      let cert := setSubject [ byName "commonName" hostname ] cert in
      match caCert m with
      | None => (inl (TypeError "Cannot read properties of undefined"), m)
      | Some ca =>
          let cert := setIssuer (subject ca) cert in
          let cert :=
            setExtensions
              [ basicConstraints false;
                keyUsage {| keyCertSign := false; digitalSignature := true;
                            nonRepudiation := false; keyEncipherment := true;
                            dataEncipherment := true |};
                extKeyUsage {| serverAuth := true; clientAuth := true;
                               codeSigning := false; emailProtection := false;
                               timeStamping := false |};
                subjectAltName [ {| altType := 2; altValue := hostname |} ] ]
              cert in
          match caKey m with
          | None => (inl (TypeError "Cannot read properties of undefined"), m)
          | Some k =>
              let cert := sign k "sha256" cert in
              let result :=
                {| key := toPem (privateKey keys); cert := toPem cert |} in
              (inr result, set_cache (<[hostname := result]> (cache m)) m)
          end
      end
  end.


(** The DNS names of a certificate's [subjectAltName]. *)
Definition dnsNames (c : Certificate) : list string :=
  match getExtension "subjectAltName" c with
  | Some (subjectAltName names) =>
      map altValue (filter (fun a => altType a = 2%Z) names)
  | _ => []
  end.

(** One call of a method of the manager. *)
Inductive step (homedir : string) : t → t → Prop :=
| step_loadOrGenerateCA m answer env disk :
    step homedir m (fst (loadOrGenerateCA homedir answer env disk m))
| step_generateCertForHost m hostname env :
    step homedir m (snd (generateCertForHost hostname env m)).

(** The states a manager goes through in a process: constructed, then any
    calls of its methods. *)
Definition reachable (homedir : string) (m : t) : Prop :=
  rtc (step homedir) (constructor homedir) m.

(** Every cached leaf names the host it is cached for. *)
Definition cache_names (m : t) : Prop :=
  ∀ h leaf, cache m !! h = Some leaf → dnsNames (fromPem (cert leaf)) = [h].

(** The manager has no CA yet, and then no leaf either, or it has both the
    key and the certificate of one. *)
Definition ca_all_or_nothing (m : t) : Prop :=
  caKey m = None ∧ caCert m = None ∧ cache m = ∅ ∨
  is_Some (caKey m) ∧ is_Some (caCert m).

(** A leaf as [generateCertForHost] mints it for [hostname]: an end-entity
    certificate for that name, carrying the public half of the key returned
    with it, valid up to the year after its first day, and signed with
    SHA-256. *)
Definition minted_for (hostname : string) (leaf : Leaf) : Prop :=
  let c := fromPem (cert leaf) in
  subject c = [byName "commonName" hostname] ∧
  dnsNames c = [hostname] ∧
  getExtension "basicConstraints" c = Some (basicConstraints false) ∧
  getExtension "keyUsage" c =
    Some (keyUsage {| keyCertSign := false; digitalSignature := true;
                      nonRepudiation := false; keyEncipherment := true;
                      dataEncipherment := true |}) ∧
  (∃ keys, key leaf = toPem (privateKey keys) ∧
           certPublicKey c = Some (publicKey keys)) ∧
  (∃ k, signature c = Some {| signer := k; digest := "sha256" |}) ∧
  Date.year (notAfter c) = (Date.year (notBefore c) + 1)%Z.

(** Every cached leaf is one minted for the hostname it is cached under. *)
Definition cache_minted (m : t) : Prop :=
  ∀ h leaf, cache m !! h = Some leaf → minted_for h leaf.

(** *** The manager on a file system

    The files of the machine by their path.  Directories are left out:
    [ensureCertDir] and the creation of the chosen directory make sure that
    the directory of the two files exists, and change no file. *)
Module Fs.

(** What a file holds: the PEM text of a private key, the PEM text of a
    certificate, or other bytes. *)
Inductive Content : Type :=
| PrivateKeyPem (k : PrivateKey)
| CertificatePem (c : Certificate)
| Bytes (text : string).

(** [fs.existsSync(path)] *)
Definition existsSync (path : string) (files : gmap string Content) : bool :=
  bool_decide (is_Some (files !! path)).

(** [forge.pki.privateKeyFromPem(fs.readFileSync(path, 'utf8'))]; [None] when
    it throws. *)
Definition privateKeyFromPem (files : gmap string Content) (path : string)
    : option PrivateKey :=
  match files !! path with
  | Some (PrivateKeyPem k) => Some k
  | _ => None
  end.

Definition certificateFromPem (files : gmap string Content) (path : string)
    : option Certificate :=
  match files !! path with
  | Some (CertificatePem c) => Some c
  | _ => None
  end.

(** The certificate of a new CA: the one that [loadOrGenerateCA] builds and
    signs when it does not load one. *)
Definition newCA (env : Env) : Certificate :=
  let keys := generateKeyPair env in
  let cert := createCertificate (created env) in
  let cert := set_publicKey (publicKey keys) cert in
  let cert := set_serialNumber "01" cert in
  let cert := set_notBefore (newDate1 env) cert in
  let cert := set_notAfter (newDate2 env) cert in
  let cert :=
    set_notAfter
      (Date.setFullYear (Date.getFullYear (notBefore cert) + 10) (notAfter cert))
      cert in
  let cert := setSubject caAttrs cert in
  let cert := setIssuer caAttrs cert in
  let cert :=
    setExtensions
      [ basicConstraints true;
        keyUsage {| keyCertSign := true; digitalSignature := true;
                    nonRepudiation := true; keyEncipherment := true;
                    dataEncipherment := true |};
        extKeyUsage {| serverAuth := true; clientAuth := true;
                       codeSigning := true; emailProtection := true;
                       timeStamping := true |} ] cert in
  sign (privateKey keys) "sha256" cert.

(** The generation of a CA, the second half of [loadOrGenerateCA]: the
    operator chooses the directory, a key pair is drawn, the certificate is
    built and signed, and both are written. *)
Definition generate (homedir answer : string) (env : Env)
    (files : gmap string Content) (m : t) : t * gmap string Content :=
  let chosenPath := promptForCertLocation homedir (JS.trim answer) m in
  let caKeyPath := path_join chosenPath "ca-key.pem" in
  let caCertPath := path_join chosenPath "ca-cert.pem" in
  let keys := generateKeyPair env in
  let cert := newCA env in
  let files := <[caKeyPath := PrivateKeyPem (privateKey keys)]> files in
  let files := <[caCertPath := CertificatePem cert]> files in
  ({| certDir := chosenPath;
      caKeyPath := caKeyPath;
      caCertPath := caCertPath;
      cache := cache m;
      caKey := Some (privateKey keys);
      caCert := Some cert |},
   files).

(** [loadOrGenerateCA] on the files of the machine; [answer] is what the
    operator types at the prompt, read only when a CA is generated. *)
Definition loadOrGenerateCA (homedir answer : string) (env : Env)
    (files : gmap string Content) (m : t) : t * gmap string Content :=
  if existsSync (caKeyPath m) files && existsSync (caCertPath m) files then
    match privateKeyFromPem files (caKeyPath m) with
    | Some k =>
        let m1 := {| certDir := certDir m; caKeyPath := caKeyPath m;
                     caCertPath := caCertPath m; cache := cache m;
                     caKey := Some k; caCert := caCert m |} in
        match certificateFromPem files (caCertPath m) with
        | Some c =>
            ({| certDir := certDir m1; caKeyPath := caKeyPath m1;
                caCertPath := caCertPath m1; cache := cache m1;
                caKey := caKey m1; caCert := Some c |}, files)
        | None => generate homedir answer env files m1
        end
    | None => generate homedir answer env files m
    end
  else generate homedir answer env files m.

(** The manager [m] with a CA in it. *)
Definition with_CA (k : PrivateKey) (c : Certificate) (m : t) : t :=
  {| certDir := certDir m; caKeyPath := caKeyPath m; caCertPath := caCertPath m;
     cache := cache m; caKey := Some k; caCert := Some c |}.

(** The two files of the CA, as the manager [m] finds them. *)
Definition disk (files : gmap string Content) (m : t) : Disk :=
  {| keyFile := match files !! caKeyPath m with
                | None => Absent
                | Some (PrivateKeyPem k) => Holds k
                | Some _ => Corrupt
                end;
     certFile := match files !! caCertPath m with
                 | None => Absent
                 | Some (CertificatePem c) => Holds c
                 | Some _ => Corrupt
                 end |}.

End Fs.

End CertificateManager.

(** ** Node's http objects *)

Module http.

(** [http.IncomingMessage]: the request of a client ([url], [method]) or the
    response of an upstream ([statusCode]); header names are lower-case. *)
Record IncomingMessage : Type := {
  url : string;
  method : string;
  statusCode : Z;
  headers : gmap string string
}.

(** [http.ServerResponse]: the status line and headers once written, the
    chunks of the body written so far, and whether [end()] was called. *)
Record ServerResponse : Type := {
  head : option (Z * gmap string string);
  written : list string;
  finished : bool
}.

Definition newResponse : ServerResponse :=
  {| head := None; written := []; finished := false |}.

(** [res.writeHead(status, headers)] throws once a head has been written. *)
Definition writeHead (status : Z) (hs : gmap string string) (res : ServerResponse)
    : Exception + ServerResponse :=
  match head res with
  | Some _ => inl ERR_HTTP_HEADERS_SENT
  | None => inr {| head := Some (status, hs); written := written res;
                   finished := finished res |}
  end.

Definition write (chunk : string) (res : ServerResponse) : ServerResponse :=
  {| head := head res; written := written res ++ [chunk]; finished := finished res |}.

(** [res.end()] and [res.end(data)] *)
Definition end_ (data : option string) (res : ServerResponse) : ServerResponse :=
  {| head := head res;
     written := match data with
                | Some d => written res ++ [d]
                | None => written res
                end;
     finished := true |}.

(** [src.pipe(res)]: every chunk is written as it arrives. *)
Definition pipe (chunks : list string) (res : ServerResponse) : ServerResponse :=
  fold_left (fun r chunk => write chunk r) chunks res.

(** How a readable stream stops: 'end', or an 'error' on the request. *)
Inductive Ending : Type :=
| ended
| errored (message : string).

(** What the upstream does with a forwarded request: the request fails
    before any response, or a response head arrives, followed by the chunks
    of its body and by the end of the stream or a failure. *)
Inductive Upstream : Type :=
| failed (message : string)
| responded (proxyRes : IncomingMessage) (chunks : list string) (ending : Ending).

End http.

(** ** ProxyServer (lib/proxy.js) *)

Module ProxyServer.
Import http.

Module Req.
Record t : Type := {
  url : string;
  method : string;
  headers : gmap string string;
  body : JSON
}.
End Req.

Module Res.
Record t : Type := {
  statusCode : Z;
  headers : gmap string string;
  body : JSON
}.
End Res.

(** A capture record: [{request, response, timestamp}]. *)
Record Captured : Type := {
  request : Req.t;
  response : Res.t;
  timestamp : string
}.

(** What the server prints, one constructor per message. *)
Inductive Console : Type :=
| RemovedOldest (limit : nat)
| CapturedJson (https : bool) (method url : string) (status : Z)
    (size : nat) (number : nat)
| TooLarge (responseSizeMB : Q) (url : string)
| ResponseSeen (status : Z) (contentType : string) (shouldCapture : bool)
| ParseFailed (hostname contentType preview : string)
| DecompressionError
| ProxyRequestError (message : string)
| HttpsProxyError (hostname message : string)
| MitmInspecting (hostname : string) (port : Z)
| NoResponses
| ListHeader (count : nat)
| ListEntrySize (number : nat) (method url : string) (status : Z) (size : nat)
| ListEntryTime (number : nat) (method url : string) (status : Z) (time : string)
| ListFooter
| InvalidNumber (available : nat)
| Analyzing (number : nat) (captured : Captured)
| Cleared
| Help
| Goodbye
| UnknownCommand (trimmed : string).

Record t : Type := {
  port : Z;
  insecure : bool;
  onResponseCaptured : bool;
  capturedResponses : list Captured;
  maxCapturedResponses : nat;
  certManager : option CertificateManager.t;
  (* observations *)
  console : list Console;
  notified : list (Captured * nat)
}.

(** [new ProxyServer(port, insecure, onResponseCaptured)]; the third
    argument says whether a callback was given. *)
Definition constructor (port : Z) (insecure : bool) (onResponseCaptured : bool) : t :=
  {| port := port;
     insecure := insecure;
     onResponseCaptured := onResponseCaptured;
     capturedResponses := [];
     maxCapturedResponses := 100;
     certManager := None;
     console := [];
     notified := [] |}.

Definition set_capturedResponses (l : list Captured) (s : t) : t :=
  {| port := port s; insecure := insecure s;
     onResponseCaptured := onResponseCaptured s;
     capturedResponses := l;
     maxCapturedResponses := maxCapturedResponses s;
     certManager := certManager s;
     console := console s; notified := notified s |}.

Definition set_certManager (m : option CertificateManager.t) (s : t) : t :=
  {| port := port s; insecure := insecure s;
     onResponseCaptured := onResponseCaptured s;
     capturedResponses := capturedResponses s;
     maxCapturedResponses := maxCapturedResponses s;
     certManager := m;
     console := console s; notified := notified s |}.

(** [console.log(...)] and [console.error(...)] *)
Definition log (e : Console) (s : t) : t :=
  {| port := port s; insecure := insecure s;
     onResponseCaptured := onResponseCaptured s;
     capturedResponses := capturedResponses s;
     maxCapturedResponses := maxCapturedResponses s;
     certManager := certManager s;
     console := console s ++ [e]; notified := notified s |}.

(** [this.onResponseCaptured(capturedResponse, n)], when a callback was
    given; the callback observes its arguments. *)
Definition notify (r : Captured) (n : nat) (s : t) : t :=
  if onResponseCaptured s then
    {| port := port s; insecure := insecure s;
       onResponseCaptured := onResponseCaptured s;
       capturedResponses := capturedResponses s;
       maxCapturedResponses := maxCapturedResponses s;
       certManager := certManager s;
       console := console s; notified := notified s ++ [(r, n)] |}
  else s.

(** [initialize()]; the manager is the one [loadOrGenerateCA] leaves. *)
Definition initialize (homedir answer : string) (env : CertificateManager.Env)
    (disk : CertificateManager.Disk) (s : t) : t * CertificateManager.Disk :=
  if insecure s then
    let '(m, disk') :=
      CertificateManager.loadOrGenerateCA homedir answer env disk
        (CertificateManager.constructor homedir) in
    (set_certManager (Some m) s, disk')
  else (s, disk).

(** The capture buffer.  [append] is the push with its limit, written twice
    in the source (handleHttpRequest and handleHttpsMITM):
<<
      this.capturedResponses.push(capturedResponse);
      if (this.capturedResponses.length > this.maxCapturedResponses) {
        const removed = this.capturedResponses.shift();
        console.log(... Removed oldest response ...);
      }
>>
    and [ordinal] is the number then shown to the operator and passed to the
    callback, [this.capturedResponses.length]. *)
Definition append (capturedResponse : Captured) (s : t) : t :=
  let s := set_capturedResponses (capturedResponses s ++ [capturedResponse]) s in
  if (maxCapturedResponses s <? length (capturedResponses s))%nat then
    let s := set_capturedResponses (tail (capturedResponses s)) s in
    log (RemovedOldest (maxCapturedResponses s)) s
  else s.

Definition ordinal (s : t) : nat := length (capturedResponses s).

(** [getResponse(index)]: the value returned ([None] is [null]) and the
    server afterwards. *)
Definition getResponse (index : Z) (s : t) : option Captured * t :=
  if ((index <? 1) || (Z.of_nat (length (capturedResponses s)) <? index))%Z
  then (None, s)
  else (capturedResponses s !! Z.to_nat (index - 1), s).

(** [forEach] with a callback that prints. *)
Definition forEach (f : Captured -> nat -> Console) (l : list Captured) (s : t) : t :=
  fold_left (fun s ri => log (f (snd ri) (fst ri)) s) (imap (fun i r => (i, r)) l) s.

(** [listResponses()], the definition at the end of the class: it is the one
    in force, a class keeps the last method of a name. *)
Definition listResponses (s : t) : t :=
  if (length (capturedResponses s) =? 0)%nat then log NoResponses s
  else
    let s := log (ListHeader (length (capturedResponses s))) s in
    let s :=
      forEach (fun resp idx =>
                 ListEntryTime (idx + 1) (Req.method (request resp))
                   (Req.url (request resp)) (Res.statusCode (response resp))
                   (timestamp resp))
        (capturedResponses s) s in
    log ListFooter s.

(** [clear]: [this.capturedResponses = []] *)
Definition clear (s : t) : t :=
  log Cleared (set_capturedResponses [] s).

(** *** Vocabulary for the statements *)

(** The bound the constructor sets, with the buffer within it. *)
Definition bounded (s : t) : Prop :=
  length (capturedResponses s) ≤ maxCapturedResponses s ∧
  maxCapturedResponses s = 100.

(** [s'] has the buffer, the limit and the manager of [s]. *)
Definition quiet (s s' : t) : Prop :=
  capturedResponses s' = capturedResponses s ∧
  maxCapturedResponses s' = maxCapturedResponses s ∧
  certManager s' = certManager s.

(** The message that tells the operator of a capture. *)
Definition isCapturedJson (e : Console) : bool :=
  match e with
  | CapturedJson _ _ _ _ _ _ => true
  | _ => false
  end.

(** Between [s] and [s'] no record was produced: the buffer is the same,
    the callback was not called, and no capture was announced among the
    messages printed. *)
Definition silent (s s' : t) : Prop :=
  capturedResponses s' = capturedResponses s ∧
  notified s' = notified s ∧
  ∃ printed,
    console s' = console s ++ printed ∧
    Forall (λ e, isCapturedJson e = false) printed.

(** The response relayed to the client: the head of the upstream, its chunks
    as they came, and the end. *)
Definition relayed (proxyRes : IncomingMessage) (chunks : list string) : ServerResponse :=
  {| head := Some (statusCode proxyRes, headers proxyRes);
     written := chunks;
     finished := true |}.

Section WithRuntime.
Context `{Runtime}.

(** [listResponses()], the first definition in the class, next to the
    interactive mode. *)
Definition listResponses_interactive (s : t) : t :=
  if (length (capturedResponses s) =? 0)%nat then log NoResponses s
  else
    let s := log (ListHeader (length (capturedResponses s))) s in
    forEach (fun resp index =>
               let size := String.length (JSON_stringify (Res.body (response resp))) in
               ListEntrySize (index + 1) (Req.method (request resp))
                 (Req.url (request resp)) (Res.statusCode (response resp)) size)
      (capturedResponses s) s.

(** [responseBody.length / (1024 * 1024)].  The length is an integer below
    2^53 and the divisor a power of two, so the quotient of the two doubles
    is exact. *)
Definition responseSizeMB (responseBody : string) : Q :=
  (inject_Z (Z.of_nat (String.length responseBody)) / inject_Z (1024 * 1024))%Q.

(** [responseSizeMB > 25] *)
Definition tooLarge (sizeMB : Q) : bool := negb (Qle_bool sizeMB 25).

(** "Parse request body if present": the [requestData] of a record. *)
Definition requestData (requestBody : string) : JSON :=
  if JS.truthy requestBody then
    match JSON_parse requestBody with
    | Some parsed => parsed
    | None => JString requestBody
    end
  else JNull.

(** The record built from a parsed response: [const capturedResponse = {...}]. *)
Definition capturedResponse (url : string) (clientReq : IncomingMessage)
    (requestBody : string) (proxyRes : IncomingMessage) (responseData : JSON)
    (now : string) : Captured :=
  {| request := {| Req.url := url;
                   Req.method := method clientReq;
                   Req.headers := headers clientReq;
                   Req.body := requestData requestBody |};
     response := {| Res.statusCode := statusCode proxyRes;
                    Res.headers := headers proxyRes;
                    Res.body := responseData |};
     timestamp := now |}.

(** What follows the construction of the record: the append, the messages,
    the callback. *)
Definition capture (https : bool) (url : string) (clientReq : IncomingMessage)
    (requestBody : string) (proxyRes : IncomingMessage) (responseBody : string)
    (responseData : JSON) (now : string) (s : t) : t :=
  let capturedResponse :=
    capturedResponse url clientReq requestBody proxyRes responseData now in
  let s := append capturedResponse s in
  let s := log (CapturedJson https (method clientReq) url (statusCode proxyRes)
                  (String.length responseBody) (ordinal s)) s in
  notify capturedResponse (ordinal s) s.

(** *** handleHttpRequest *)

(** The 'end' listener of [proxyRes]. *)
Definition proxyRes_on_end (clientReq : IncomingMessage) (requestBody : string)
    (proxyRes : IncomingMessage) (responseBody : string) (now : string) (s : t) : t :=
  let contentType := JS.or_else (headers proxyRes !! "content-type") "" in
  if JS.includes contentType "application/json" || JS.includes contentType "text/json"
  then
    if tooLarge (responseSizeMB responseBody) then
      log (TooLarge (responseSizeMB responseBody) (url clientReq)) s
    else
      match JSON_parse responseBody with
      | Some responseData =>
          capture false (url clientReq) clientReq requestBody proxyRes
            responseBody responseData now s
      | None => s (* not valid JSON, ignore *)
      end
  else s.

(** What a handler leaves: the server, the response written to the client,
    and the exception that left a listener, if any. *)
Record Outcome : Type := {
  server : t;
  clientRes : ServerResponse;
  thrown : option Exception
}.

(** The 'error' listener of [proxyReq]. *)
Definition proxyReq_on_error (message : string) (s : t) (res : ServerResponse) : Outcome :=
  let s := log (ProxyRequestError message) s in
  match writeHead 502 {[ "Content-Type" := "text/plain" ]} res with
  | inl e => {| server := s; clientRes := res; thrown := Some e |}
  | inr res => {| server := s; clientRes := end_ (Some "Bad Gateway") res;
                  thrown := None |}
  end.

(** [delete options.headers['proxy-connection']]: [options.headers] is the
    header object of [clientReq] itself. *)
Definition delete_proxy_connection (clientReq : IncomingMessage) : IncomingMessage :=
  {| url := url clientReq; method := method clientReq;
     statusCode := statusCode clientReq;
     headers := delete "proxy-connection" (headers clientReq) |}.

(** [handleHttpRequest(clientReq, clientRes)] for a request whose body
    arrives as [requestChunks], against an upstream that behaves as
    [upstream]; [now] is the clock when a record is built. *)
Definition handleHttpRequest (clientReq : IncomingMessage) (requestChunks : list string)
    (upstream : Upstream) (now : string) (s : t) : Outcome :=
  let requestBody := JS.concat requestChunks in
  let clientReq := delete_proxy_connection clientReq in
  let clientRes := newResponse in
  match upstream with
  | failed message => proxyReq_on_error message s clientRes
  | responded proxyRes chunks ending =>
      match writeHead (statusCode proxyRes) (headers proxyRes) clientRes with
      | inl e => {| server := s; clientRes := clientRes; thrown := Some e |}
      | inr clientRes =>
          let responseBody := JS.concat chunks in
          let clientRes := pipe chunks clientRes in
          match ending with
          | ended =>
              {| server := proxyRes_on_end clientReq requestBody proxyRes
                             responseBody now s;
                 clientRes := end_ None clientRes;
                 thrown := None |}
          | errored message => proxyReq_on_error message s clientRes
          end
      end
  end.

(** *** handleHttpsMITM *)

(** [this.certManager.generateCertForHost(hostname)] *)
Definition generateCertForHost (hostname : string) (env : CertificateManager.Env)
    (s : t) : (Exception + CertificateManager.Leaf) * t :=
  match certManager s with
  | None => (inl (TypeError "Cannot read properties of null"), s)
  | Some m =>
      let '(r, m') := CertificateManager.generateCertForHost hostname env m in
      (r, set_certManager (Some m') s)
  end.

Definition CRLF : string := String "013" (String "010" "").

(** [handleHttpsMITM] up to the TLS socket: the leaf for the CONNECT host
    and the bytes written to the client socket. *)
Definition handleHttpsMITM (hostname : string) (port : Z)
    (env : CertificateManager.Env) (s : t)
    : (Exception + (CertificateManager.Leaf * string)) * t :=
  match generateCertForHost hostname env s with
  | (inl e, s) => (inl e, s)
  | (inr certData, s) =>
      (inr (certData, "HTTP/1.1 200 Connection Established" +:+ CRLF +:+ CRLF),
       log (MitmInspecting hostname port) s)
  end.

(** The [SNICallback] of the TLS options. *)
Definition SNICallback (servername : string) (env : CertificateManager.Env) (s : t)
    : (Exception + CertificateManager.Leaf) * t :=
  generateCertForHost servername env s.

(** [responseStream]: [proxyRes] itself, or [proxyRes] piped through the
    decompressor that its content-encoding names. *)
Definition responseStream (encoding : option string) (raw : string) : option string :=
  match encoding with
  | Some e =>
      if String.eqb e "gzip" then zlib_gunzip raw
      else if String.eqb e "deflate" then zlib_inflate raw
      else if String.eqb e "br" then zlib_brotliDecompress raw
      else Some raw
  | None => Some raw
  end.

(** The 'end' listener of [responseStream]; [responseBody] is
    [Buffer.concat(chunks).toString('utf8')]. *)
Definition responseStream_on_end (hostname : string) (clientReq : IncomingMessage)
    (requestBody : string) (proxyRes : IncomingMessage) (contentType : string)
    (responseBody : string) (now : string) (s : t) : t :=
  let url := "https://" +:+ hostname +:+ url clientReq in
  if tooLarge (responseSizeMB responseBody) then
    log (TooLarge (responseSizeMB responseBody) url) s
  else
    match JSON_parse responseBody with
    | Some responseData =>
        capture true url clientReq requestBody proxyRes responseBody
          responseData now s
    | None =>
        log (ParseFailed hostname contentType (JS.substring0 100 responseBody)) s
    end.

(** The 'error' listener of [proxyReq] in the MITM handler. *)
Definition https_proxyReq_on_error (hostname message : string) (s : t)
    (res : ServerResponse) : Outcome :=
  let s := log (HttpsProxyError hostname message) s in
  match writeHead 502 {[ "Content-Type" := "text/plain" ]} res with
  | inl e => {| server := s; clientRes := res; thrown := Some e |}
  | inr res => {| server := s; clientRes := end_ (Some "Bad Gateway") res;
                  thrown := None |}
  end.

(** The request listener of the inner [http.createServer] of
    [handleHttpsMITM(req, clientSocket, head, hostname, port)]: one decrypted
    request of the connection. *)
Definition handleHttpsMITM_request (hostname : string) (clientReq : IncomingMessage)
    (requestChunks : list string) (upstream : Upstream) (now : string) (s : t)
    : Outcome :=
  let requestBody := JS.concat requestChunks in
  let clientReq := delete_proxy_connection clientReq in
  let clientRes := newResponse in
  match upstream with
  | failed message => https_proxyReq_on_error hostname message s clientRes
  | responded proxyRes chunks ending =>
      let contentType := JS.or_else (headers proxyRes !! "content-type") "" in
      let shouldCapture :=
        JS.includes contentType "application/json" ||
        JS.includes contentType "text/json" ||
        JS.includes contentType "json" in
      let s := log (ResponseSeen (statusCode proxyRes) contentType shouldCapture) s in
      match writeHead (statusCode proxyRes) (headers proxyRes) clientRes with
      | inl e => {| server := s; clientRes := clientRes; thrown := Some e |}
      | inr clientRes =>
          let clientRes := pipe chunks clientRes in
          match ending with
          | ended =>
              let s :=
                if shouldCapture then
                  let encoding := headers proxyRes !! "content-encoding" in
                  match responseStream encoding (JS.concat chunks) with
                  | Some responseBody =>
                      responseStream_on_end hostname clientReq requestBody
                        proxyRes contentType responseBody now s
                  | None => log DecompressionError s
                  end
                else s in
              {| server := s; clientRes := end_ None clientRes; thrown := None |}
          | errored message => https_proxyReq_on_error hostname message s clientRes
          end
      end
  end.

(** *** Either handler

    The two handlers share the shape of their pipeline; they differ in the
    content types they take for JSON and in the text they measure and
    parse. *)
Inductive Handler : Type :=
| plain
| mitm (hostname : string).

Definition handle (h : Handler) : IncomingMessage → list string → Upstream →
    string → t → Outcome :=
  match h with
  | plain => handleHttpRequest
  | mitm hostname => handleHttpsMITM_request hostname
  end.

(** The content-type test of each handler. *)
Definition takesForJson (h : Handler) (contentType : string) : bool :=
  match h with
  | plain =>
      JS.includes contentType "application/json" || JS.includes contentType "text/json"
  | mitm _ =>
      JS.includes contentType "application/json" ||
      JS.includes contentType "text/json" ||
      JS.includes contentType "json"
  end.

(** The text each handler measures and parses, when the stream it reads
    ends: the chunks as received, or the chunks decoded as the
    content-encoding says. *)
Definition bodyText (h : Handler) (proxyRes : IncomingMessage) (chunks : list string)
    : option string :=
  match h with
  | plain => Some (JS.concat chunks)
  | mitm _ => responseStream (headers proxyRes !! "content-encoding") (JS.concat chunks)
  end.

(** The [url] of the record each handler builds. *)
Definition recordUrl (h : Handler) (clientReq : IncomingMessage) : string :=
  match h with
  | plain => url clientReq
  | mitm hostname => "https://" +:+ hostname +:+ url clientReq
  end.

(** *** The interactive mode *)

(** [/^\d+$/.test(trimmed)] *)
Definition all_digits (s : string) : bool :=
  JS.truthy s && forallb JsonText.is_digit (list_ascii_of_string s).

(** [parseInt(trimmed, 10)] of a string of digits *)
Definition parseInt10 (s : string) : Z :=
  fold_left (fun n c => (10 * n + (Z.of_N (N_of_ascii c) - 48))%Z)
    (list_ascii_of_string s) 0%Z.

(** [analyzeResponse(index)] up to the launch of the navigator *)
Definition analyzeResponse (index : nat) (s : t) : t :=
  match capturedResponses s !! index with
  | None => s
  | Some captured => log (Analyzing (index + 1) captured) s
  end.

(** The 'line' listener of [setupInteractiveMode]; [trimmed] is
    [input.trim()]. *)
Definition rl_on_line (trimmed : string) (s : t) : t :=
  if all_digits trimmed then
    let index := (parseInt10 trimmed - 1)%Z in
    if ((0 <=? index) && (index <? Z.of_nat (length (capturedResponses s))))%Z
    then analyzeResponse (Z.to_nat index) s
    else log (InvalidNumber (length (capturedResponses s))) s
  else if String.eqb trimmed "list" || String.eqb trimmed "ls" then listResponses s
  else if String.eqb trimmed "clear" then clear s
  else if String.eqb trimmed "help" then log Help s
  else if String.eqb trimmed "exit" || String.eqb trimmed "quit" then log Goodbye s
  else if JS.truthy trimmed then log (UnknownCommand trimmed) s
  else s.

(** *** The life of a server

    One step is one call from the outside: a request through either handler
    with whatever the upstream does, a CONNECT in MITM mode, a TLS server
    name, a line typed by the operator, a read of the buffer. *)
Inductive step : t -> t -> Prop :=
| step_initialize homedir answer env disk s :
    step s (fst (initialize homedir answer env disk s))
| step_handleHttpRequest clientReq requestChunks upstream now s :
    step s (server (handleHttpRequest clientReq requestChunks upstream now s))
| step_handleHttpsMITM hostname port env s :
    step s (snd (handleHttpsMITM hostname port env s))
| step_SNICallback servername env s :
    step s (snd (SNICallback servername env s))
| step_handleHttpsMITM_request hostname clientReq requestChunks upstream now s :
    step s (server (handleHttpsMITM_request hostname clientReq requestChunks
                      upstream now s))
| step_rl_on_line trimmed s :
    step s (rl_on_line trimmed s)
| step_getResponse index s :
    step s (snd (getResponse index s))
| step_listResponses s :
    step s (listResponses s).

(** The states of a process: those that steps lead to from a new server. *)
Definition reachable (s : t) : Prop :=
  ∃ port insecure callback, rtc step (constructor port insecure callback) s.



(** The records [rs] appended one after the other. *)
Definition appends (rs : list Captured) (s : t) : t :=
  fold_left (fun s r => append r s) rs s.

(** Every record of the buffer holds, as its [response.body], a value that
    JSON.parse gave for some text. *)
Definition bodies_parsed (s : t) : Prop :=
  ∀ r, r ∈ capturedResponses s →
       ∃ text, JSON_parse text = Some (Res.body (response r)).

End WithRuntime.

(** *** CONNECT *)




(** Every manager of a server has its CA loaded, belongs to a server in
    MITM mode, and caches under each hostname a leaf that names it. *)
Definition manager_ready (s : t) : Prop :=
  ∀ m, certManager s = Some m →
       insecure s = true ∧
       is_Some (CertificateManager.caKey m) ∧
       is_Some (CertificateManager.caCert m) ∧
       CertificateManager.cache_names m.

(** No record carries the hop-by-hop header [proxy-connection] among the
    headers of its request. *)
Definition no_proxy_connection (s : t) : Prop :=
  ∀ r, r ∈ capturedResponses s → Req.headers (request r) !! "proxy-connection" = None.

End ProxyServer.

(** ** Sample exchanges *)

Module Sample.
Import http ProxyServer.

Definition server0 : ProxyServer.t := constructor 8888 false false.

Definition get (u : string) : IncomingMessage :=
  {| url := u; method := "GET"; statusCode := 0;
     headers := {[ "host" := "upstream.test" ]} |}.

Definition post (u : string) : IncomingMessage :=
  {| url := u; method := "POST"; statusCode := 0;
     headers := {[ "host" := "upstream.test";
                   "proxy-connection" := "keep-alive" ]} |}.

Definition ok (contentType : string) : IncomingMessage :=
  {| url := ""; method := ""; statusCode := 200;
     headers := {[ "content-type" := contentType ]} |}.

(** [GET http://upstream.test/data] through the plain handler, answered by
    [{"x":1}]; and [n] such exchanges one after the other. *)
Definition exchange1 (s : ProxyServer.t) : ProxyServer.t :=
  server (@handleHttpRequest ReferenceRuntime (get "http://upstream.test/data") []
            (responded (ok "application/json") [JsonText.text "{'x':1}"] ended)
            "2025-01-01T00:00:00.000Z" s).

Fixpoint after (n : nat) (s : ProxyServer.t) : ProxyServer.t :=
  match n with
  | O => s
  | S n' => exchange1 (after n' s)
  end.

(** A record, as the plain handler builds it for [GET /data] answered by
    [{"x":1}]. *)
Definition record1 : Captured :=
  {| request := {| Req.url := "http://upstream.test/data"; Req.method := "GET";
                   Req.headers := {[ "host" := "upstream.test" ]};
                   Req.body := JNull |};
     response := {| Res.statusCode := 200;
                    Res.headers := {[ "content-type" := "application/json" ]};
                    Res.body := JObject [("x", JNumber "1")] |};
     timestamp := "2025-01-01T00:00:00.000Z" |}.

(** The gzip stream of [{"a":[1,2,3]}], stored. *)
Definition gzipped : string :=
  Zlib.of_bytes
    [31; 139; 8; 0; 0; 0; 0; 0; 4; 3; 1; 13; 0; 242; 255; 123; 34; 97; 34; 58;
     91; 49; 44; 50; 44; 51; 93; 125; 145; 26; 17; 135; 13; 0; 0; 0]%Z.

Definition okGzip (contentType : string) : IncomingMessage :=
  {| url := ""; method := ""; statusCode := 200;
     headers := {[ "content-type" := contentType;
                   "content-encoding" := "gzip" ]} |}.



Definition keys1 : forge.KeyPair :=
  {| forge.privateKey := {| forge.priv_n := 3233; forge.priv_e := 17; forge.priv_d := 413 |};
     forge.publicKey := {| forge.pub_n := 3233; forge.pub_e := 17 |} |}.

Definition keys2 : forge.KeyPair :=
  {| forge.privateKey := {| forge.priv_n := 3127; forge.priv_e := 3; forge.priv_d := 2011 |};
     forge.publicKey := {| forge.pub_n := 3127; forge.pub_e := 3 |} |}.

Definition noon : Date.t :=
  {| Date.year := 2025; Date.month := 5; Date.date := 15; Date.time := 43200000 |}.

Definition env (keys : forge.KeyPair) (now : Date.t) : CertificateManager.Env :=
  {| CertificateManager.generateKeyPair := keys;
     CertificateManager.created := now;
     CertificateManager.DateNow := 1750000000000;
     CertificateManager.newDate1 := now;
     CertificateManager.newDate2 := now |}.

Definition emptyDisk : CertificateManager.Disk :=
  {| CertificateManager.keyFile := CertificateManager.Absent;
     CertificateManager.certFile := CertificateManager.Absent |}.

(** A manager after [loadOrGenerateCA] on a machine without CA files. *)
Definition manager1 : CertificateManager.t :=
  fst (CertificateManager.loadOrGenerateCA "/home/op" "1" (env keys1 noon) emptyDisk
         (CertificateManager.constructor "/home/op")).

End Sample.

(** * Properties *)

(** ** Strings *)

Module JSFacts.
Import JS.

Lemma append_cons (c : ascii) (s t : string) :
  String c s +:+ t = String c (s +:+ t).
Proof. reflexivity. Qed.

Lemma append_nil_r (s : string) : s +:+ "" = s.
Proof.
  induction s as [|c s IH]; [done |]. by rewrite append_cons, IH.
Qed.

Lemma append_assoc (a b c : string) : (a +:+ b) +:+ c = a +:+ (b +:+ c).
Proof.
  induction a as [|x a IH]; [reflexivity |]. by rewrite !append_cons, IH.
Qed.








Lemma concat_from (chunks : list string) (acc : string) :
  fold_left (fun acc chunk => acc +:+ chunk) chunks acc = acc +:+ concat chunks.
Proof.
  unfold concat. revert acc.
  induction chunks as [|c chunks IH]; intros acc; simpl.
  - by rewrite append_nil_r.
  - change ("" +:+ c) with c. rewrite IH, (IH c). by rewrite append_assoc.
Qed.

Lemma concat_singleton (body : string) : concat [body] = body.
Proof. done. Qed.

Lemma truthy_false (s : string) : truthy s = false ↔ s = "".
Proof. destruct s; simpl; split; congruence. Qed.

End JSFacts.

(** ** The reference reader *)

Module ReferenceFacts.




End ReferenceFacts.

(** ** The capture buffer *)

Module BufferFacts.
Import http ProxyServer.

Lemma quiet_refl (s : t) : quiet s s.
Proof. done. Qed.

Lemma quiet_trans (s1 s2 s3 : t) : quiet s1 s2 → quiet s2 s3 → quiet s1 s3.
Proof. unfold quiet. intros (-> & -> & ->) (-> & -> & ->). done. Qed.

Lemma quiet_log (e : Console) (s : t) : quiet s (log e s).
Proof. done. Qed.

Lemma quiet_notify (r : Captured) (n : nat) (s : t) : quiet s (notify r n s).
Proof. unfold notify. by destruct (onResponseCaptured s). Qed.

Lemma quiet_forEach (f : Captured → nat → Console) (l : list Captured) (s : t) :
  quiet s (forEach f l s).
Proof.
  unfold forEach. generalize (imap (λ i r, (i, r)) l). intros l'.
  revert s. induction l' as [|x l' IH]; intros s; simpl; [done |].
  eapply quiet_trans; [apply (quiet_log (f x.2 x.1)) | apply IH].
Qed.

Lemma quiet_bounded (s s' : t) : quiet s s' → bounded s → bounded s'.
Proof. unfold quiet, bounded. intros (-> & -> & _). done. Qed.

Lemma silent_refl (s : t) : silent s s.
Proof. split_and!; [done | done |]. exists []. by rewrite app_nil_r. Qed.

Lemma silent_trans (s1 s2 s3 : t) : silent s1 s2 → silent s2 s3 → silent s1 s3.
Proof.
  intros (Hc1 & Hn1 & p1 & Hp1 & Hf1) (Hc2 & Hn2 & p2 & Hp2 & Hf2).
  split_and!; [congruence | congruence |].
  exists (p1 ++ p2). split; [by rewrite Hp2, Hp1, app_assoc |].
  by apply Forall_app.
Qed.

Lemma silent_log (e : Console) (s : t) :
  isCapturedJson e = false → silent s (log e s).
Proof.
  intros He. split_and!; [done | done |]. exists [e]. split; [done |].
  by apply Forall_singleton.
Qed.

Lemma append_max (r : Captured) (s : t) :
  maxCapturedResponses (append r s) = maxCapturedResponses s.
Proof. unfold append. simpl. by case_match. Qed.

Lemma append_certManager (r : Captured) (s : t) :
  certManager (append r s) = certManager s.
Proof. unfold append. simpl. by case_match. Qed.

(** What [append] leaves in the buffer. *)
Lemma append_captured (r : Captured) (s : t) :
  capturedResponses (append r s) =
  if (maxCapturedResponses s <? length (capturedResponses s ++ [r]))%nat
  then tail (capturedResponses s ++ [r])
  else capturedResponses s ++ [r].
Proof. unfold append. simpl. by case_match. Qed.


Lemma append_below (r : Captured) (s : t) :
  length (capturedResponses s) < maxCapturedResponses s →
  capturedResponses (append r s) = capturedResponses s ++ [r].
Proof.
  intros Hlt. rewrite append_captured, length_app. simpl.
  case_match eqn:E; [| done]. apply Nat.ltb_lt in E. lia.
Qed.

Lemma append_full (r : Captured) (s : t) :
  maxCapturedResponses s ≤ length (capturedResponses s) →
  capturedResponses (append r s) = tail (capturedResponses s ++ [r]).
Proof.
  intros Hle. rewrite append_captured, length_app. simpl.
  case_match eqn:E; [done |]. apply Nat.ltb_ge in E. lia.
Qed.

Lemma tail_snoc {A : Type} (l : list A) (x : A) :
  l ≠ [] → tail (l ++ [x]) = tail l ++ [x].
Proof. by destruct l. Qed.

Lemma append_bounded (r : Captured) (s : t) : bounded s → bounded (append r s).
Proof.
  unfold bounded. intros [Hlen Hmax]. rewrite append_max. split; [| done].
  rewrite append_captured, length_app. simpl.
  case_match eqn:E.
  - rewrite length_tl, length_app. simpl. lia.
  - apply Nat.ltb_ge in E. rewrite length_app. simpl. lia.
Qed.


Lemma last_append_changed (r : Captured) (s : t) :
  capturedResponses (append r s) ≠ capturedResponses s →
  last (capturedResponses (append r s)) = Some r.
Proof.
  rewrite append_captured. case_match; [| intros _; apply last_snoc].
  destruct (capturedResponses s) as [|x l]; [done |].
  intros _. simpl. apply last_snoc.
Qed.



(** A record of the buffer after an append was there before, or is the one
    appended. *)
Lemma elem_of_append (x r : Captured) (s : t) :
  x ∈ capturedResponses (append r s) → x ∈ capturedResponses s ∨ x = r.
Proof.
  rewrite append_captured. intros Hx.
  assert (x ∈ capturedResponses s ++ [r]) as Hin.
  { case_match; [| done].
    destruct (capturedResponses s ++ [r]) as [|y l]; [done |].
    simpl in Hx. by apply list_elem_of_further. }
  apply elem_of_app in Hin as [? | Hin]; [by left | right].
  by apply list_elem_of_singleton in Hin.
Qed.

(** After any number of appends the buffer holds the latest records, at
    most 100 of them, in the order of their arrival. *)
Lemma appends_keep_the_latest (rs : list Captured) (s : t) :
  bounded s →
  capturedResponses (appends rs s) =
  drop (length (capturedResponses s ++ rs) - 100) (capturedResponses s ++ rs).
Proof.
  revert s. induction rs as [|r rs IH]; intros s Hb.
  - destruct Hb as [Hlen Hmax]. simpl. rewrite app_nil_r.
    replace (length (capturedResponses s) - 100) with 0 by lia. done.
  - change (appends (r :: rs) s) with (appends rs (append r s)).
    rewrite IH by (by apply append_bounded).
    destruct Hb as [Hlen Hmax].
    destruct (decide (length (capturedResponses s) < 100)) as [Hlt | Hge].
    + rewrite append_below by lia. by rewrite <- app_assoc.
    + rewrite append_full by lia.
      destruct (capturedResponses s) as [|x l] eqn:El; [simpl in *; lia |].
      simpl in Hlen, Hge. simpl tail. rewrite <- !app_assoc. simpl.
      rewrite !length_app. simpl.
      replace (length l + S (length rs) - 100) with (length rs) by lia.
      replace (length l + S (length rs) - 99) with (S (length rs)) by lia.
      done.
Qed.

Lemma clear_bounded (s : t) : bounded s → bounded (clear s).
Proof. unfold bounded. simpl. lia. Qed.

Lemma constructor_bounded (port : Z) (insecure callback : bool) :
  bounded (constructor port insecure callback).
Proof. unfold bounded. simpl. lia. Qed.

Lemma quiet_listResponses (s : t) : quiet s (listResponses s).
Proof.
  unfold listResponses. case_match; [apply quiet_log |].
  eapply quiet_trans; [| apply quiet_log].
  eapply quiet_trans; [| apply quiet_forEach]. apply quiet_log.
Qed.

Lemma quiet_getResponse (index : Z) (s : t) : (getResponse index s).2 = s.
Proof. unfold getResponse. by case_match. Qed.

(** The size test is a test on the length: [responseSizeMB > 25] holds
    exactly when the text is longer than 25 * 1024 * 1024. *)
Lemma tooLarge_spec (responseBody : string) :
  tooLarge (responseSizeMB responseBody) = true ↔
  (25 * 1024 * 1024 < Z.of_nat (String.length responseBody))%Z.
Proof.
  unfold tooLarge, responseSizeMB.
  rewrite negb_true_iff, <- not_true_iff_false, Qle_bool_iff.
  unfold Qle, Qdiv, Qmult, Qinv, inject_Z. simpl. lia.
Qed.

Lemma tooLarge_false (responseBody : string) :
  tooLarge (responseSizeMB responseBody) = false ↔
  (Z.of_nat (String.length responseBody) ≤ 25 * 1024 * 1024)%Z.
Proof.
  rewrite <- not_true_iff_false, tooLarge_spec. lia.
Qed.

End BufferFacts.

(** ** The two handlers *)

Module HandlerFacts.
Import http ProxyServer BufferFacts.

Section WithRuntime.
Context `{Runtime}.

Lemma pipe_written (chunks : list string) (res : ServerResponse) :
  pipe chunks res =
  {| head := head res; written := written res ++ chunks; finished := finished res |}.
Proof.
  unfold pipe. revert res. induction chunks as [|c chunks IH]; intros res; simpl.
  - rewrite app_nil_r. by destruct res.
  - rewrite IH. simpl. by rewrite <- app_assoc.
Qed.


(** A capture is an append, followed by messages. *)
Lemma capture_quiet https url clientReq requestBody proxyRes responseBody
    responseData now s :
  quiet (append (capturedResponse url clientReq requestBody proxyRes responseData now) s)
    (capture https url clientReq requestBody proxyRes responseBody responseData now s).
Proof.
  unfold capture. eapply quiet_trans; [| apply quiet_notify]. apply quiet_log.
Qed.

Lemma capture_bounded https url clientReq requestBody proxyRes responseBody
    responseData now s :
  bounded s →
  bounded (capture https url clientReq requestBody proxyRes responseBody responseData now s).
Proof.
  intros Hb. eapply quiet_bounded; [apply capture_quiet |]. by apply append_bounded.
Qed.

Lemma capture_certManager https url clientReq requestBody proxyRes responseBody
    responseData now s :
  certManager
    (capture https url clientReq requestBody proxyRes responseBody responseData now s) =
  certManager s.
Proof.
  destruct (capture_quiet https url clientReq requestBody proxyRes responseBody
              responseData now s) as (_ & _ & ->).
  apply append_certManager.
Qed.


(** What a stream that has ended leaves, for the plain handler: no record,
    or the capture of a response that passed the three tests. *)
Lemma proxyRes_on_end_cases clientReq requestBody proxyRes responseBody now s :
  let s' := proxyRes_on_end clientReq requestBody proxyRes responseBody now s in
  (quiet s s' ∧ silent s s') ∨
  ∃ responseData,
    (JS.includes (JS.or_else (headers proxyRes !! "content-type") "") "application/json"
       = true ∨
     JS.includes (JS.or_else (headers proxyRes !! "content-type") "") "text/json"
       = true) ∧
    (Z.of_nat (String.length responseBody) ≤ 25 * 1024 * 1024)%Z ∧
    JSON_parse responseBody = Some responseData ∧
    s' = capture false (url clientReq) clientReq requestBody proxyRes responseBody
           responseData now s.
Proof.
  unfold proxyRes_on_end.
  destruct (JS.includes _ "application/json" || JS.includes _ "text/json") eqn:Ect;
    [| left; split; [done | apply silent_refl]].
  destruct (tooLarge (responseSizeMB responseBody)) eqn:Esz;
    [left; split; [done | by apply silent_log] |].
  destruct (JSON_parse responseBody) as [responseData|] eqn:Ep;
    [| left; split; [done | apply silent_refl]].
  right. exists responseData. split_and!; [| by apply tooLarge_false | done | done].
  by apply orb_true_iff in Ect.
Qed.

(** The same for the MITM handler. *)
Lemma responseStream_on_end_cases hostname clientReq requestBody proxyRes contentType
    responseBody now s :
  let s' := responseStream_on_end hostname clientReq requestBody proxyRes contentType
              responseBody now s in
  (quiet s s' ∧ silent s s') ∨
  ∃ responseData,
    (Z.of_nat (String.length responseBody) ≤ 25 * 1024 * 1024)%Z ∧
    JSON_parse responseBody = Some responseData ∧
    s' = capture true ("https://" +:+ hostname +:+ url clientReq) clientReq requestBody
           proxyRes responseBody responseData now s.
Proof.
  unfold responseStream_on_end.
  destruct (tooLarge (responseSizeMB responseBody)) eqn:Esz;
    [left; split; [done | by apply silent_log] |].
  destruct (JSON_parse responseBody) as [responseData|] eqn:Ep;
    [| left; split; [done | by apply silent_log]].
  right. exists responseData. split_and!; [by apply tooLarge_false | done | done].
Qed.

Lemma proxyReq_on_error_quiet message s res :
  quiet s (server (proxyReq_on_error message s res)) ∧
  silent s (server (proxyReq_on_error message s res)).
Proof.
  unfold proxyReq_on_error.
  destruct (writeHead _ _ res); (split; [done | by apply silent_log]).
Qed.

Lemma https_proxyReq_on_error_quiet hostname message s res :
  quiet s (server (https_proxyReq_on_error hostname message s res)) ∧
  silent s (server (https_proxyReq_on_error hostname message s res)).
Proof.
  unfold https_proxyReq_on_error.
  destruct (writeHead _ _ res); (split; [done | by apply silent_log]).
Qed.

(** What an exchange leaves in the server, for either handler: no record, or
    the capture of a response that ended, that the handler took for JSON,
    whose text is within the cap and was parsed. *)
Lemma handle_cases h clientReq requestChunks upstream now s :
  let s' := server (handle h clientReq requestChunks upstream now s) in
  (quiet s s' ∧ silent s s') ∨
  ∃ proxyRes chunks responseBody responseData s0,
    upstream = responded proxyRes chunks ended ∧
    takesForJson h (JS.or_else (headers proxyRes !! "content-type") "") = true ∧
    bodyText h proxyRes chunks = Some responseBody ∧
    (Z.of_nat (String.length responseBody) ≤ 25 * 1024 * 1024)%Z ∧
    JSON_parse responseBody = Some responseData ∧
    quiet s s0 ∧ silent s s0 ∧
    s' = capture (match h with plain => false | mitm _ => true end)
           (recordUrl h clientReq) (delete_proxy_connection clientReq)
           (JS.concat requestChunks) proxyRes responseBody responseData now s0.
Proof.
  destruct h as [|hostname]; cbn [handle].
  - unfold handleHttpRequest.
    destruct upstream as [message | proxyRes chunks [|message]].
    + left. apply proxyReq_on_error_quiet.
    + cbn [writeHead newResponse head server].
      destruct (proxyRes_on_end_cases (delete_proxy_connection clientReq)
                  (JS.concat requestChunks) proxyRes (JS.concat chunks) now s)
        as [Hq | (responseData & Hct & Hsz & Hp & Hs)]; [by left |].
      right. exists proxyRes, chunks, (JS.concat chunks), responseData, s.
      split_and!; try done; [by apply orb_true_iff | apply silent_refl].
    + cbn [writeHead newResponse head]. left. apply proxyReq_on_error_quiet.
  - unfold handleHttpsMITM_request.
    destruct upstream as [message | proxyRes chunks [|message]].
    + left. apply https_proxyReq_on_error_quiet.
    + cbn [writeHead newResponse head server].
      set (contentType := JS.or_else (headers proxyRes !! "content-type") "").
      set (shouldCapture := JS.includes contentType "application/json" || _ || _).
      set (s0 := log (ResponseSeen (statusCode proxyRes) contentType shouldCapture) s).
      assert (quiet s s0 ∧ silent s s0) as [Hq0 Hs0]
        by (split; [done | by apply silent_log]).
      destruct shouldCapture eqn:Esc; [| by left].
      destruct (responseStream _ (JS.concat chunks)) as [responseBody|] eqn:Ers.
      * destruct (responseStream_on_end_cases hostname (delete_proxy_connection clientReq)
                    (JS.concat requestChunks) proxyRes contentType responseBody now s0)
          as [[Hq Hs] | (responseData & Hsz & Hp & Hs)].
        -- left. split; [by eapply quiet_trans | by eapply silent_trans].
        -- right. exists proxyRes, chunks, responseBody, responseData, s0.
           split_and!; done.
      * left. split; [done |]. eapply silent_trans; [exact Hs0 |]. by apply silent_log.
    + cbn [writeHead newResponse head]. left.
      match goal with
      | |- context [https_proxyReq_on_error ?a ?b ?c ?d] =>
          destruct (https_proxyReq_on_error_quiet a b c d) as [Hq Hs]
      end.
      split.
      * eapply quiet_trans; [| exact Hq]. apply quiet_log.
      * eapply silent_trans; [| exact Hs]. by apply silent_log.
Qed.


(** A handler keeps the buffer within its bound. *)
Lemma handle_bounded h clientReq requestChunks upstream now s :
  bounded s → bounded (server (handle h clientReq requestChunks upstream now s)).
Proof.
  intros Hb.
  destruct (handle_cases h clientReq requestChunks upstream now s)
    as [[Hq _] | (? & ? & ? & ? & s0 & _ & _ & _ & _ & _ & Hq & _ & ->)].
  - by eapply quiet_bounded.
  - apply capture_bounded. by eapply quiet_bounded.
Qed.

(** An exchange whose upstream response ends: the client is sent the
    response as it came, and the server is what the 'end' listener of the
    handler leaves. *)
Lemma handle_ended h clientReq requestChunks proxyRes chunks now s :
  let out := handle h clientReq requestChunks (responded proxyRes chunks ended) now s in
  let contentType := JS.or_else (headers proxyRes !! "content-type") "" in
  clientRes out = relayed proxyRes chunks ∧
  thrown out = None ∧
  server out =
    match h with
    | plain =>
        proxyRes_on_end (delete_proxy_connection clientReq) (JS.concat requestChunks)
          proxyRes (JS.concat chunks) now s
    | mitm hostname =>
        let s0 := log (ResponseSeen (statusCode proxyRes) contentType
                         (takesForJson h contentType)) s in
        if takesForJson h contentType then
          match bodyText h proxyRes chunks with
          | Some responseBody =>
              responseStream_on_end hostname (delete_proxy_connection clientReq)
                (JS.concat requestChunks) proxyRes contentType responseBody now s0
          | None => log DecompressionError s0
          end
        else s0
    end.
Proof.
  destruct h as [|hostname]; cbn [handle]; cbn zeta.
  - unfold handleHttpRequest. cbn [writeHead newResponse head].
    cbn [clientRes thrown server]. rewrite pipe_written. by split_and!.
  - unfold handleHttpsMITM_request. cbn [writeHead newResponse head].
    cbn [clientRes thrown server]. rewrite pipe_written. by split_and!.
Qed.


(** One character more: nothing is captured, the warning is printed, and
    the client is sent the response as it came. *)
Lemma one_more_than_the_cap_is_skipped h clientReq requestChunks proxyRes
    chunks now s responseBody :
  takesForJson h (JS.or_else (headers proxyRes !! "content-type") "") = true →
  bodyText h proxyRes chunks = Some responseBody →
  Z.of_nat (String.length responseBody) = (25 * 1024 * 1024 + 1)%Z →
  let out := handle h clientReq requestChunks (responded proxyRes chunks ended) now s in
  capturedResponses (server out) = capturedResponses s ∧
  last (console (server out)) =
    Some (TooLarge (responseSizeMB responseBody) (recordUrl h clientReq)) ∧
  clientRes out = relayed proxyRes chunks ∧
  thrown out = None.
Proof.
  intros Hct Hbody Hlen. cbn zeta.
  destruct (handle_ended h clientReq requestChunks proxyRes chunks now s)
    as (Hres & Hthrown & Hs).
  split_and!; [| | done | done]; rewrite Hs.
  all: assert (tooLarge (responseSizeMB responseBody) = true) as Hsz
    by (apply tooLarge_spec; lia).
  all: destruct h as [|hostname].
  - simpl in Hct, Hbody. injection Hbody as <-.
    unfold proxyRes_on_end. by rewrite Hct, Hsz.
  - cbn zeta. rewrite Hct, Hbody. unfold responseStream_on_end. by rewrite Hsz.
  - simpl in Hct, Hbody. injection Hbody as <-.
    unfold proxyRes_on_end. rewrite Hct, Hsz. simpl. apply last_snoc.
  - cbn zeta. rewrite Hct, Hbody. unfold responseStream_on_end. rewrite Hsz.
    simpl. apply last_snoc.
Qed.


(** The plain handler never reads the content-encoding: the text it
    measures and parses is the chunks as received, whatever the runtime. *)
Lemma plain_handler_parses_the_bytes_received clientReq requestChunks
    proxyRes chunks now s :
  JSON_parse (JS.concat chunks) = None →
  capturedResponses
    (server (handleHttpRequest clientReq requestChunks
               (responded proxyRes chunks ended) now s)) =
  capturedResponses s.
Proof.
  intros Hp.
  destruct (handle_cases plain clientReq requestChunks
              (responded proxyRes chunks ended) now s)
    as [[(Hc & _) _] | (? & ? & ? & ? & ? & Hup & _ & Hbody & _ & Hp' & _)];
    [exact Hc |].
  simplify_eq. simpl in Hbody. by simplify_eq.
Qed.

End WithRuntime.
End HandlerFacts.

(** ** The states of a process *)

Module ProcessFacts.
Import http ProxyServer BufferFacts HandlerFacts.

Section WithRuntime.
Context `{Runtime}.

Lemma generateCertForHost_bounded hostname env s :
  bounded s → bounded (generateCertForHost hostname env s).2.
Proof.
  unfold generateCertForHost. destruct (certManager s) as [m|]; [| done].
  by destruct (CertificateManager.generateCertForHost hostname env m).
Qed.

Lemma rl_on_line_bounded trimmed s : bounded s → bounded (rl_on_line trimmed s).
Proof.
  intros Hb. unfold rl_on_line, analyzeResponse.
  repeat case_match; try done.
  - eapply quiet_bounded; [apply quiet_listResponses | done].
  - by apply clear_bounded.
Qed.

Lemma step_bounded s s' : step s s' → bounded s → bounded s'.
Proof.
  intros Hstep Hb. destruct Hstep.
  - unfold initialize. destruct (insecure s); [| done].
    by destruct (CertificateManager.loadOrGenerateCA _ _ _ _ _).
  - by apply (handle_bounded plain).
  - unfold handleHttpsMITM.
    pose proof (generateCertForHost_bounded hostname env s Hb) as Hg.
    destruct (generateCertForHost hostname env s) as [[e|certData] s1]; done.
  - by apply generateCertForHost_bounded.
  - by apply (handle_bounded (mitm hostname)).
  - by apply rl_on_line_bounded.
  - by rewrite quiet_getResponse.
  - eapply quiet_bounded; [apply quiet_listResponses | done].
Qed.

(** In every state of a process the buffer holds at most 100 records, the
    limit the constructor sets. *)
Lemma reachable_bounded s : reachable s → bounded s.
Proof.
  intros (port & insecure & callback & Hrtc). revert s Hrtc.
  apply (rtc_ind_r (λ s, bounded s)).
  - apply constructor_bounded.
  - intros s1 s2 _ Hstep Hb. by eapply step_bounded.
Qed.

Lemma handle_bodies_parsed h clientReq requestChunks upstream now s :
  bodies_parsed s →
  bodies_parsed (server (handle h clientReq requestChunks upstream now s)).
Proof.
  intros Hp r.
  destruct (handle_cases h clientReq requestChunks upstream now s)
    as [[(Hc & _) _] |
        (proxyRes & chunks & responseBody & responseData & s0 &
         _ & _ & _ & _ & Hparse & (Hc0 & _) & _ & Hs)].
  - rewrite Hc. apply Hp.
  - rewrite Hs.
    destruct (capture_quiet (match h with plain => false | mitm _ => true end)
                (recordUrl h clientReq) (delete_proxy_connection clientReq)
                (JS.concat requestChunks) proxyRes responseBody responseData now s0)
      as (-> & _).
    intros [Hold | ->]%elem_of_append.
    + apply Hp. by rewrite <- Hc0.
    + by exists responseBody.
Qed.

Lemma step_bodies_parsed s s' : step s s' → bodies_parsed s → bodies_parsed s'.
Proof.
  intros Hstep Hp. destruct Hstep.
  - unfold initialize. destruct (insecure s); [| done].
    by destruct (CertificateManager.loadOrGenerateCA _ _ _ _ _).
  - by apply (handle_bodies_parsed plain).
  - unfold handleHttpsMITM, generateCertForHost.
    destruct (certManager s) as [m|]; [| done].
    by destruct (CertificateManager.generateCertForHost hostname env m) as [[?|?] ?].
  - unfold SNICallback, generateCertForHost.
    destruct (certManager s) as [m|]; [| done].
    by destruct (CertificateManager.generateCertForHost servername env m).
  - by apply (handle_bodies_parsed (mitm hostname)).
  - unfold rl_on_line, analyzeResponse. repeat case_match; try done.
    + intros r. destruct (quiet_listResponses s) as (-> & _). apply Hp.
    + intros r Hr. simpl in Hr. by apply elem_of_nil in Hr.
  - by rewrite quiet_getResponse.
  - intros r. destruct (quiet_listResponses s) as (-> & _). apply Hp.
Qed.

(** In every state of a process, the [response.body] of every record of the
    buffer is a value that JSON.parse gave for some text. *)
Lemma reachable_bodies_parsed s : reachable s → bodies_parsed s.
Proof.
  intros (port & insecure & callback & Hrtc). revert s Hrtc.
  apply (rtc_ind_r (λ s, bodies_parsed s)).
  - intros r Hr. simpl in Hr. by apply elem_of_nil in Hr.
  - intros s1 s2 _ Hstep Hp. by eapply step_bodies_parsed.
Qed.

Lemma reachable_new port insecure callback :
  reachable (constructor port insecure callback).
Proof. by exists port, insecure, callback. Qed.

Lemma reachable_step s s' : reachable s → step s s' → reachable s'.
Proof.
  intros (port & insecure & callback & Hrtc) Hstep.
  exists port, insecure, callback. by eapply rtc_r.
Qed.

End WithRuntime.

Lemma reachable_after (n : nat) :
  @reachable ReferenceRuntime (Sample.after n Sample.server0).
Proof.
  induction n as [|n IH]; [apply reachable_new |].
  eapply reachable_step; [exact IH |]. apply step_handleHttpRequest.
Qed.

End ProcessFacts.

(** ** Leaf certificates *)

Module CertFacts.
Import forge CertificateManager.

Lemma setFullYear_year (y : Z) (d : Date.t) : Date.year (Date.setFullYear y d) = y.
Proof. unfold Date.setFullYear. by case_match. Qed.

Lemma setFullYear_time (y : Z) (d : Date.t) :
  Date.time (Date.setFullYear y d) = Date.time d.
Proof. unfold Date.setFullYear. by case_match. Qed.

(** Apart from 29 February, the month and the day are kept. *)
Lemma setFullYear_day (y : Z) (d : Date.t) :
  ¬ (Date.month d = 1%Z ∧ Date.date d = 29%Z) →
  Date.month (Date.setFullYear y d) = Date.month d ∧
  Date.date (Date.setFullYear y d) = Date.date d.
Proof.
  intros Hn. unfold Date.setFullYear. case_match eqn:E; [| done].
  apply andb_true_iff in E as [E _]. apply andb_true_iff in E as [E1 E2].
  apply Z.eqb_eq in E1, E2. tauto.
Qed.

(** What a call that misses the cache returns, with the two clock readings
    of the validity kept apart. *)
Lemma generateCertForHost_miss (hostname : string) (env : Env) (m : t)
    (ca : Certificate) (k : PrivateKey) :
  caCert m = Some ca → caKey m = Some k → cache m !! hostname = None →
  ∃ leaf,
    generateCertForHost hostname env m =
      (inr leaf, set_cache (<[hostname := leaf]> (cache m)) m) ∧
    key leaf = toPem (privateKey (generateKeyPair env)) ∧
    certPublicKey (fromPem (cert leaf)) = Some (publicKey (generateKeyPair env)) ∧
    serialNumber (fromPem (cert leaf)) = pretty (DateNow env) ∧
    subject (fromPem (cert leaf)) = [byName "commonName" hostname] ∧
    issuer (fromPem (cert leaf)) = subject ca ∧
    extensions (fromPem (cert leaf)) =
      [ basicConstraints false;
        keyUsage {| keyCertSign := false; digitalSignature := true;
                    nonRepudiation := false; keyEncipherment := true;
                    dataEncipherment := true |};
        extKeyUsage {| serverAuth := true; clientAuth := true;
                       codeSigning := false; emailProtection := false;
                       timeStamping := false |};
        subjectAltName [ {| altType := 2; altValue := hostname |} ] ] ∧
    notBefore (fromPem (cert leaf)) = newDate1 env ∧
    notAfter (fromPem (cert leaf)) =
      Date.setFullYear (Date.getFullYear (newDate1 env) + 1) (newDate2 env) ∧
    signature (fromPem (cert leaf)) = Some {| signer := k; digest := "sha256" |}.
Proof.
  intros Hca Hk Hmiss. unfold generateCertForHost. rewrite Hmiss, Hca, Hk.
  eexists. split; [reflexivity |]. by split_and!.
Qed.

Lemma dnsNames_minted (hostname : string) (c : Certificate) :
  extensions c =
    [ basicConstraints false;
      keyUsage {| keyCertSign := false; digitalSignature := true;
                  nonRepudiation := false; keyEncipherment := true;
                  dataEncipherment := true |};
      extKeyUsage {| serverAuth := true; clientAuth := true;
                     codeSigning := false; emailProtection := false;
                     timeStamping := false |};
      subjectAltName [ {| altType := 2; altValue := hostname |} ] ] →
  getExtension "basicConstraints" c = Some (basicConstraints false) ∧
  getExtension "extKeyUsage" c =
    Some (extKeyUsage {| serverAuth := true; clientAuth := true;
                         codeSigning := false; emailProtection := false;
                         timeStamping := false |}) ∧
  getExtension "subjectAltName" c =
    Some (subjectAltName [ {| altType := 2; altValue := hostname |} ]) ∧
  dnsNames c = [hostname].
Proof.
  intros He. unfold dnsNames, getExtension. rewrite He. by split_and!.
Qed.

(** The validity in general: notBefore is the first clock reading; notAfter
    is the second one with the year set to one after the year of the first. *)
Lemma minted_validity (hostname : string) (env : Env) (m : t) (leaf : Leaf) (m' : t) :
  cache m !! hostname = None →
  generateCertForHost hostname env m = (inr leaf, m') →
  notBefore (fromPem (cert leaf)) = newDate1 env ∧
  notAfter (fromPem (cert leaf)) =
    Date.setFullYear (Date.getFullYear (newDate1 env) + 1) (newDate2 env).
Proof.
  intros Hmiss. unfold generateCertForHost. rewrite Hmiss.
  destruct (caCert m); [| done]. destruct (caKey m); [| done].
  by intros [= <- _].
Qed.

Lemma cache_names_step (homedir : string) (m m' : t) :
  step homedir m m' → cache_names m → cache_names m'.
Proof.
  intros Hstep Hn. destruct Hstep as [m answer env disk | m hostname env].
  - unfold loadOrGenerateCA.
    destruct (existsSync (keyFile disk) && existsSync (certFile disk));
      [destruct (keyFile disk); [| | destruct (certFile disk)] |]; exact Hn.
  - unfold generateCertForHost.
    destruct (cache m !! hostname) as [cached|] eqn:Hc; [exact Hn |].
    destruct (caCert m) as [ca|]; [| exact Hn].
    destruct (caKey m) as [k|]; [| exact Hn].
    intros h leaf. simpl. rewrite lookup_insert. case_decide as Hh.
    + intros [= <-]. subst h. reflexivity.
    + apply Hn.
Qed.

Lemma reachable_cache_names (homedir : string) (m : t) :
  reachable homedir m → cache_names m.
Proof.
  revert m. apply (rtc_ind_r (λ m, cache_names m)).
  - intros h leaf Hl. simpl in Hl. by rewrite lookup_empty in Hl.
  - intros m1 m2 _ Hstep Hn. by eapply cache_names_step.
Qed.

(** A leaf stays in the cache. *)
Lemma cache_kept_step (homedir : string) (m m' : t) (h : string) (leaf : Leaf) :
  step homedir m m' → cache m !! h = Some leaf → cache m' !! h = Some leaf.
Proof.
  intros Hstep Hl. destruct Hstep as [m answer env disk | m hostname env].
  - unfold loadOrGenerateCA.
    destruct (existsSync (keyFile disk) && existsSync (certFile disk));
      [destruct (keyFile disk); [| | destruct (certFile disk)] |]; exact Hl.
  - unfold generateCertForHost.
    destruct (cache m !! hostname) as [cached|] eqn:Hc; [exact Hl |].
    destruct (caCert m) as [ca|]; [| exact Hl].
    destruct (caKey m) as [k|]; [| exact Hl].
    simpl. rewrite lookup_insert_ne; [exact Hl | congruence].
Qed.

Lemma cache_kept (homedir : string) (m m' : t) (h : string) (leaf : Leaf) :
  rtc (step homedir) m m' → cache m !! h = Some leaf → cache m' !! h = Some leaf.
Proof.
  intros Hrtc. induction Hrtc as [|m1 m2 m3 Hstep _ IH]; [done |].
  intros Hl. apply IH. by eapply cache_kept_step.
Qed.

(** What a call returns is in the cache afterwards. *)
Lemma generateCertForHost_cached (hostname : string) (env : Env) (m m' : t) (leaf : Leaf) :
  generateCertForHost hostname env m = (inr leaf, m') →
  cache m' !! hostname = Some leaf.
Proof.
  unfold generateCertForHost.
  destruct (cache m !! hostname) as [cached|] eqn:Hc.
  - by intros [= <- <-].
  - destruct (caCert m); [| done]. destruct (caKey m); [| done].
    intros [= <- <-]. simpl. apply lookup_insert_eq.
Qed.

Lemma generateCertForHost_hit (hostname : string) (env : Env) (m : t) (leaf : Leaf) :
  cache m !! hostname = Some leaf →
  generateCertForHost hostname env m = (inr leaf, m).
Proof. intros Hc. unfold generateCertForHost. by rewrite Hc. Qed.

Lemma reachable_manager1 : reachable "/home/op" Sample.manager1.
Proof. apply rtc_once. constructor. Qed.

End CertFacts.

(** * The claims *)

(** ** The proxy *)

Module ProxyClaims.
Import http ProxyServer BufferFacts HandlerFacts ProcessFacts ReferenceFacts.


(** C2. In every state of a process, after [append] the limit is still 100
    and the buffer is within it; the appended record is the last one; and
    either the buffer is the old one followed by the record, or (when that
    would be longer than the limit) it is the old one without its first
    element, followed by the record. *)
Theorem append_keeps_limit_and_drops_oldest `{Runtime} (r : Captured) (s : t) :
  reachable s →
  let s' := append r s in
  maxCapturedResponses s' = 100 ∧
  length (capturedResponses s') ≤ maxCapturedResponses s' ∧
  last (capturedResponses s') = Some r ∧
  (length (capturedResponses s ++ [r]) ≤ 100 ∧
   capturedResponses s' = capturedResponses s ++ [r]
   ∨
   100 < length (capturedResponses s ++ [r]) ∧
   ∃ oldest rest,
     capturedResponses s = oldest :: rest ∧ capturedResponses s' = rest ++ [r]).
Proof.
  intros Hr. pose proof (reachable_bounded s Hr) as [Hlen Hmax].
  destruct (append_bounded r s (conj Hlen Hmax)) as [Hlen' Hmax'].
  cbn zeta. split_and!; [done | done | |].
  - rewrite append_captured. case_match eqn:E.
    + destruct (capturedResponses s) as [|x l] eqn:El.
      * apply Nat.ltb_lt in E. simpl in E. lia.
      * simpl. apply last_snoc.
    + apply last_snoc.
  - rewrite length_app. simpl.
    destruct (decide (length (capturedResponses s) + 1 ≤ 100)) as [Hle | Hgt].
    + left. split; [done |]. apply append_below. lia.
    + right. split; [lia |].
      destruct (capturedResponses s) as [|oldest rest] eqn:El; [simpl in Hgt; lia |].
      exists oldest, rest. split; [done |].
      rewrite append_full; [by rewrite El | rewrite El; simpl in *; lia].
Qed.

Lemma append_keeps_limit_and_drops_oldest_witness :
  let s := Sample.after 100 Sample.server0 in
  let s' := append Sample.record1 s in
  @reachable ReferenceRuntime s ∧
  length (capturedResponses s) = 100 ∧
  length (capturedResponses s') = 100 ∧
  last (capturedResponses s') = Some Sample.record1 ∧
  ∃ oldest rest,
    capturedResponses s = oldest :: rest ∧
    capturedResponses s' = rest ++ [Sample.record1].
Proof.
  cbn zeta.
  destruct (@append_keeps_limit_and_drops_oldest ReferenceRuntime Sample.record1
              (Sample.after 100 Sample.server0) (reachable_after 100))
    as (_ & _ & Hlast & [[Hle _] | [_ Hdrop]]).
  - exfalso. revert Hle. vm_compute. lia.
  - split_and!; [apply reachable_after | vm_compute; reflexivity
                | vm_compute; reflexivity | exact Hlast | exact Hdrop].
Defined.

(** C3 at inputs where the code departs from it.  The plain handler
    captures neither a JSON response served as [application/vnd.api+json]
    nor one served gzip-encoded: it takes only [application/json] and
    [text/json] for JSON and parses the bytes as received.  The MITM handler
    captures both, the second one decoded. *)
Theorem plain_handler_misses_json_types_and_codings :
  let now := "2025-01-01T00:00:00.000Z" in
  let typed := responded (Sample.ok "application/vnd.api+json") [JsonText.text "{'x':1}"] ended in
  let coded := responded (Sample.okGzip "application/json") [Sample.gzipped] ended in
  capturedResponses
    (server (@handleHttpRequest ReferenceRuntime (Sample.get "http://upstream.test/data")
               [] typed now Sample.server0)) = [] ∧
  map (λ r, Res.body (response r))
    (capturedResponses
       (server (@handleHttpsMITM_request ReferenceRuntime "upstream.test"
                  (Sample.get "/data") [] typed now Sample.server0))) =
    [JObject [("x", JNumber "1")]] ∧
  capturedResponses
    (server (@handleHttpRequest ReferenceRuntime (Sample.get "http://upstream.test/data")
               [] coded now Sample.server0)) = [] ∧
  map (λ r, Res.body (response r))
    (capturedResponses
       (server (@handleHttpsMITM_request ReferenceRuntime "upstream.test"
                  (Sample.get "/data") [] coded now Sample.server0))) =
    [JObject [("a", JArray [JNumber "1"; JNumber "2"; JNumber "3"])]].
Proof. cbn zeta. split_and!; vm_compute; reflexivity. Qed.





(** C6, as the code has it.  When the upstream request fails before any
    response head has come, the client of the plain handler receives status
    502 with the header Content-Type: text/plain and the body [Bad Gateway],
    no exception leaves the handler, and the buffer is as it was.  When the
    upstream fails later, after its response head, the buffer is as it was
    too. *)
Theorem upstream_failure_before_head_gives_502 `{Runtime}
    (clientReq : IncomingMessage) (requestChunks : list string) (now : string) (s : t) :
  (∀ message,
     let out := handleHttpRequest clientReq requestChunks (failed message) now s in
     clientRes out =
       {| head := Some (502%Z, {[ "Content-Type" := "text/plain" ]});
          written := ["Bad Gateway"];
          finished := true |} ∧
     thrown out = None ∧
     capturedResponses (server out) = capturedResponses s) ∧
  (∀ proxyRes chunks message,
     let out := handleHttpRequest clientReq requestChunks
                  (responded proxyRes chunks (errored message)) now s in
     capturedResponses (server out) = capturedResponses s).
Proof.
  split.
  - intros message. by cbn.
  - intros proxyRes chunks message. cbn zeta.
    destruct (handle_cases plain clientReq requestChunks
                (responded proxyRes chunks (errored message)) now s)
      as [[(Hc & _) _] | (? & ? & ? & ? & ? & Hup & _)]; [exact Hc | done].
Qed.

(** C6, as the specification has it, fails: when the upstream connection is
    reset after the response head and a first chunk, the client has been
    sent the status of the upstream, not 502; the second [writeHead] throws
    and the response is never ended. *)
Lemma upstream_failure_after_head_is_not_502 :
  let out := @handleHttpRequest ReferenceRuntime (Sample.get "http://upstream.test/data")
               [] (responded (Sample.ok "application/json") [JsonText.text "{'x':"]
                     (errored "read ECONNRESET"))
               "2025-01-01T00:00:00.000Z" Sample.server0 in
  head (clientRes out) = Some (200%Z, {[ "content-type" := "application/json" ]}) ∧
  head (clientRes out) ≠ Some (502%Z, {[ "Content-Type" := "text/plain" ]}) ∧
  written (clientRes out) = [JsonText.text "{'x':"] ∧
  finished (clientRes out) = false ∧
  thrown out = Some ERR_HTTP_HEADERS_SENT.
Proof.
  cbn zeta. split_and!; [reflexivity | | reflexivity | reflexivity | reflexivity].
  intros Heq. discriminate Heq.
Qed.



(** C10. Whatever the state of the server and the integer [index],
    [getResponse(index)] leaves the server as it is and both definitions of
    [listResponses()] leave the buffer as it is; [getResponse] returns
    [null] for an index below 1 or above the length of the buffer, and the
    record at that position otherwise. *)
Theorem reads_leave_the_buffer `{Runtime} (s : t) (index : Z) :
  snd (getResponse index s) = s ∧
  capturedResponses (listResponses s) = capturedResponses s ∧
  capturedResponses (listResponses_interactive s) = capturedResponses s ∧
  ((index < 1 ∨ Z.of_nat (length (capturedResponses s)) < index)%Z →
   fst (getResponse index s) = None) ∧
  ((1 ≤ index ≤ Z.of_nat (length (capturedResponses s)))%Z →
   ∃ r, fst (getResponse index s) = Some r ∧
        capturedResponses s !! Z.to_nat (index - 1) = Some r).
Proof.
  split_and!.
  - apply quiet_getResponse.
  - apply quiet_listResponses.
  - unfold listResponses_interactive. case_match; [done |].
    eapply quiet_trans; [| apply quiet_forEach]. apply quiet_log.
  - intros Hout. unfold getResponse. case_match eqn:E; [done |].
    apply orb_false_iff in E as [E1 E2].
    apply Z.ltb_ge in E1, E2. lia.
  - intros Hin. unfold getResponse. case_match eqn:E.
    + apply orb_true_iff in E as [E | E]; apply Z.ltb_lt in E; lia.
    + simpl. destruct (capturedResponses s !! Z.to_nat (index - 1)) as [r|] eqn:El.
      * by exists r.
      * apply lookup_ge_None in El. lia.
Qed.

Lemma reads_leave_the_buffer_witness :
  let s := append Sample.record1 Sample.server0 in
  ((0 < 1 ∨ Z.of_nat (length (capturedResponses s)) < 0)%Z ∧
   fst (getResponse 0 s) = None) ∧
  ((1 ≤ 1 ≤ Z.of_nat (length (capturedResponses s)))%Z ∧
   ∃ r, fst (getResponse 1 s) = Some r ∧ capturedResponses s !! Z.to_nat (1 - 1) = Some r) ∧
  capturedResponses (@listResponses_interactive ReferenceRuntime s) = capturedResponses s.
Proof.
  cbn zeta.
  pose proof (@reads_leave_the_buffer ReferenceRuntime
                (append Sample.record1 Sample.server0) 0) as (_ & _ & Hli & Hout & _).
  pose proof (@reads_leave_the_buffer ReferenceRuntime
                (append Sample.record1 Sample.server0) 1) as (_ & _ & _ & _ & Hin).
  assert ((0 < 1 ∨ Z.of_nat (length (capturedResponses
            (append Sample.record1 Sample.server0))) < 0)%Z) as H0 by (left; lia).
  assert ((1 ≤ 1 ≤ Z.of_nat (length (capturedResponses
            (append Sample.record1 Sample.server0))))%Z) as H1 by (simpl; lia).
  split; [split; [exact H0 | exact (Hout H0)] |].
  split; [split; [exact H1 | exact (Hin H1)] |].
  exact Hli.
Defined.

End ProxyClaims.

(** ** The certificate manager *)

Module LeafClaims.
Import forge CertificateManager CertFacts.

(** C8. With the CA loaded, a call for a hostname that is not cached
    succeeds, caches what it returns, and the certificate it returns, minted
    at the instant [now] (the reading of both [new Date()]), has as issuer
    the subject attributes of the CA, basicConstraints with cA false, an
    extKeyUsage of serverAuth and clientAuth only, a subjectAltName with the
    one DNS entry [hostname], notBefore [now], and as notAfter [now] with the
    year set one later: the year after, at the same time of day, on the same
    day of the same month unless [now] is a 29 February. *)
Theorem minted_leaf_certificate (hostname : string) (keys : KeyPair)
    (created now : Date.t) (dateNow : Z) (m : t) (ca : Certificate) (k : PrivateKey) :
  caCert m = Some ca → caKey m = Some k → cache m !! hostname = None →
  ∃ leaf,
    generateCertForHost hostname
      {| generateKeyPair := keys; created := created; DateNow := dateNow;
         newDate1 := now; newDate2 := now |} m =
      (inr leaf, set_cache (<[hostname := leaf]> (cache m)) m) ∧
    issuer (fromPem (cert leaf)) = subject ca ∧
    getExtension "basicConstraints" (fromPem (cert leaf)) = Some (basicConstraints false) ∧
    getExtension "extKeyUsage" (fromPem (cert leaf)) =
      Some (extKeyUsage {| serverAuth := true; clientAuth := true;
                           codeSigning := false; emailProtection := false;
                           timeStamping := false |}) ∧
    getExtension "subjectAltName" (fromPem (cert leaf)) =
      Some (subjectAltName [ {| altType := 2; altValue := hostname |} ]) ∧
    dnsNames (fromPem (cert leaf)) = [hostname] ∧
    notBefore (fromPem (cert leaf)) = now ∧
    notAfter (fromPem (cert leaf)) = Date.setFullYear (Date.getFullYear now + 1) now ∧
    Date.year (notAfter (fromPem (cert leaf))) = (Date.year now + 1)%Z ∧
    Date.time (notAfter (fromPem (cert leaf))) = Date.time now ∧
    (¬ (Date.month now = 1%Z ∧ Date.date now = 29%Z) →
     Date.month (notAfter (fromPem (cert leaf))) = Date.month now ∧
     Date.date (notAfter (fromPem (cert leaf))) = Date.date now).
Proof.
  intros Hca Hk Hmiss.
  destruct (generateCertForHost_miss hostname
              {| generateKeyPair := keys; created := created; DateNow := dateNow;
                 newDate1 := now; newDate2 := now |} m ca k Hca Hk Hmiss)
    as (leaf & Hgen & _ & _ & _ & _ & Hiss & Hext & Hnb & Hna & _).
  exists leaf. simpl in Hnb, Hna.
  destruct (dnsNames_minted hostname _ Hext) as (Hbc & Heku & Hsan & Hdns).
  split_and!; try done.
  - by rewrite Hna, setFullYear_year.
  - by rewrite Hna, setFullYear_time.
  - intros Hday. rewrite Hna. by apply setFullYear_day.
Qed.

Lemma minted_leaf_certificate_witness :
  ∃ ca k leaf,
    caCert Sample.manager1 = Some ca ∧
    caKey Sample.manager1 = Some k ∧
    cache Sample.manager1 !! "api.example.com" = None ∧
    generateCertForHost "api.example.com" (Sample.env Sample.keys2 Sample.noon)
      Sample.manager1 =
      (inr leaf, set_cache (<["api.example.com" := leaf]> (cache Sample.manager1))
                   Sample.manager1) ∧
    issuer (fromPem (cert leaf)) = subject ca ∧
    subject ca = caAttrs ∧
    dnsNames (fromPem (cert leaf)) = ["api.example.com"] ∧
    notAfter (fromPem (cert leaf)) =
      {| Date.year := 2026; Date.month := 5; Date.date := 15; Date.time := 43200000 |}.
Proof.
  destruct (minted_leaf_certificate "api.example.com" Sample.keys2 Sample.noon
              Sample.noon 1750000000000 Sample.manager1 _ _ eq_refl eq_refl eq_refl)
    as (leaf & Hgen & Hiss & _ & _ & _ & Hdns & _ & Hna & _).
  eexists _, _, leaf.
  split_and!; [reflexivity | reflexivity | reflexivity | exact Hgen | exact Hiss
              | reflexivity | exact Hdns | exact Hna].
Defined.

(** C9. In a process, once a call for [h] has returned a leaf, every later
    call for [h] returns that same pair of key and certificate, with the
    same public key, and changes nothing; and the certificates returned
    for two different hostnames, at any two moments, carry different DNS
    names: each names the host it was asked for. *)
Theorem leaf_is_cached_and_names_its_host (homedir : string) (m : t) :
  reachable homedir m →
  (∀ h env1 leaf1 m1 m2 env2,
     generateCertForHost h env1 m = (inr leaf1, m1) →
     rtc (step homedir) m1 m2 →
     ∃ leaf2,
       generateCertForHost h env2 m2 = (inr leaf2, m2) ∧
       key leaf2 = key leaf1 ∧
       cert leaf2 = cert leaf1 ∧
       certPublicKey (fromPem (cert leaf2)) = certPublicKey (fromPem (cert leaf1))) ∧
  (∀ m' h1 h2 env1 env2 leaf1 leaf2 m1 m2,
     reachable homedir m' →
     h1 ≠ h2 →
     generateCertForHost h1 env1 m = (inr leaf1, m1) →
     generateCertForHost h2 env2 m' = (inr leaf2, m2) →
     dnsNames (fromPem (cert leaf1)) = [h1] ∧
     dnsNames (fromPem (cert leaf2)) = [h2] ∧
     dnsNames (fromPem (cert leaf1)) ≠ dnsNames (fromPem (cert leaf2))).
Proof.
  intros Hr. split.
  - intros h env1 leaf1 m1 m2 env2 Hgen Hlater. exists leaf1. split; [| done].
    apply generateCertForHost_hit. eapply cache_kept; [exact Hlater |].
    by eapply generateCertForHost_cached.
  - intros m' h1 h2 env1 env2 leaf1 leaf2 m1 m2 Hr' Hne Hg1 Hg2.
    assert (∀ m0 h env leaf m3, reachable homedir m0 →
              generateCertForHost h env m0 = (inr leaf, m3) →
              dnsNames (fromPem (cert leaf)) = [h]) as Hnames.
    { intros m0 h env leaf m3 Hr0 Hg.
      assert (reachable homedir m3) as Hr3.
      { eapply rtc_r; [exact Hr0 |].
        replace m3 with (snd (generateCertForHost h env m0)) by (by rewrite Hg).
        constructor. }
      eapply reachable_cache_names; [exact Hr3 |].
      by eapply generateCertForHost_cached. }
    rewrite (Hnames _ _ _ _ _ Hr Hg1), (Hnames _ _ _ _ _ Hr' Hg2).
    split_and!; [done | done | congruence].
Qed.

Lemma leaf_is_cached_and_names_its_host_witness :
  reachable "/home/op" Sample.manager1 ∧
  ∃ leafA mA leafB mB,
    generateCertForHost "a.test" (Sample.env Sample.keys1 Sample.noon) Sample.manager1 =
      (inr leafA, mA) ∧
    generateCertForHost "b.test" (Sample.env Sample.keys2 Sample.noon) mA =
      (inr leafB, mB) ∧
    generateCertForHost "a.test" (Sample.env Sample.keys2 Sample.noon) mB =
      (inr leafA, mB) ∧
    dnsNames (fromPem (cert leafA)) ≠ dnsNames (fromPem (cert leafB)).
Proof.
  split; [exact reachable_manager1 |].
  destruct (leaf_is_cached_and_names_its_host "/home/op" Sample.manager1
              reachable_manager1) as [Hsame Hnames].
  destruct (generateCertForHost_miss "a.test" (Sample.env Sample.keys1 Sample.noon)
              Sample.manager1 _ _ eq_refl eq_refl eq_refl) as (leafA & HgenA & _).
  set (mA := set_cache (<["a.test" := leafA]> (cache Sample.manager1)) Sample.manager1)
    in HgenA.
  assert (cache mA !! "b.test" = None) as HmissB.
  { subst mA. simpl. rewrite lookup_insert_ne by discriminate. reflexivity. }
  destruct (generateCertForHost_miss "b.test" (Sample.env Sample.keys2 Sample.noon)
              mA _ _ eq_refl eq_refl HmissB) as (leafB & HgenB & _).
  set (mB := set_cache (<["b.test" := leafB]> (cache mA)) mA) in HgenB.
  assert (step "/home/op" Sample.manager1 mA) as HstepA.
  { replace mA with (snd (generateCertForHost "a.test"
                            (Sample.env Sample.keys1 Sample.noon) Sample.manager1))
      by (by rewrite HgenA).
    constructor. }
  assert (step "/home/op" mA mB) as HstepB.
  { replace mB with (snd (generateCertForHost "b.test"
                            (Sample.env Sample.keys2 Sample.noon) mA))
      by (by rewrite HgenB).
    constructor. }
  exists leafA, mA, leafB, mB. split_and!; [exact HgenA | exact HgenB | |].
  - destruct (Hsame "a.test" (Sample.env Sample.keys1 Sample.noon) leafA mA mB
                (Sample.env Sample.keys2 Sample.noon)
                HgenA (rtc_once _ _ HstepB)) as (leaf2 & Hgen2 & Hk & Hc & _).
    rewrite Hgen2. destruct leaf2, leafA. simpl in Hk, Hc. by subst.
  - apply (Hnames mA "a.test" "b.test" (Sample.env Sample.keys1 Sample.noon)
             (Sample.env Sample.keys2 Sample.noon) leafA leafB mA mB);
      [by eapply rtc_r; [exact reachable_manager1 |] | discriminate | exact HgenA
      | exact HgenB].
Defined.

End LeafClaims.

(** * Further properties

    Properties of the same code beyond the claims above: the capture
    pipeline end to end, the numbering of the buffer, the interactive mode,
    CONNECT, and the CA of the certificate manager on the files of the
    machine. *)

(** ** Captures *)

Module CaptureFacts.
Import http ProxyServer BufferFacts HandlerFacts ProcessFacts.

Section WithRuntime.
Context `{Runtime}.







Lemma handle_no_proxy_connection h clientReq requestChunks upstream now s :
  no_proxy_connection s →
  no_proxy_connection (server (handle h clientReq requestChunks upstream now s)).
Proof.
  intros Hn r.
  destruct (handle_cases h clientReq requestChunks upstream now s)
    as [[(Hc & _) _] |
        (proxyRes & chunks & responseBody & responseData & s0 &
         _ & _ & _ & _ & _ & (Hc0 & _) & _ & Hs)].
  - rewrite Hc. apply Hn.
  - rewrite Hs.
    destruct (capture_quiet (match h with plain => false | mitm _ => true end)
                (recordUrl h clientReq) (delete_proxy_connection clientReq)
                (JS.concat requestChunks) proxyRes responseBody responseData now s0)
      as (-> & _).
    intros [Hold | ->]%elem_of_append.
    + apply Hn. by rewrite <- Hc0.
    + simpl. apply lookup_delete_eq.
Qed.

Lemma step_no_proxy_connection s s' :
  step s s' → no_proxy_connection s → no_proxy_connection s'.
Proof.
  intros Hstep Hp. destruct Hstep.
  - unfold initialize. destruct (insecure s); [| done].
    by destruct (CertificateManager.loadOrGenerateCA _ _ _ _ _).
  - by apply (handle_no_proxy_connection plain).
  - unfold handleHttpsMITM, generateCertForHost.
    destruct (certManager s) as [m|]; [| done].
    by destruct (CertificateManager.generateCertForHost hostname env m) as [[?|?] ?].
  - unfold SNICallback, generateCertForHost.
    destruct (certManager s) as [m|]; [| done].
    by destruct (CertificateManager.generateCertForHost servername env m).
  - by apply (handle_no_proxy_connection (mitm hostname)).
  - unfold rl_on_line, analyzeResponse. repeat case_match; try done.
    + intros r. destruct (quiet_listResponses s) as (-> & _). apply Hp.
    + intros r Hr. simpl in Hr. by apply elem_of_nil in Hr.
  - by rewrite quiet_getResponse.
  - intros r. destruct (quiet_listResponses s) as (-> & _). apply Hp.
Qed.

End WithRuntime.
End CaptureFacts.

Module ProxyProperties.
Import http ProxyServer BufferFacts HandlerFacts ProcessFacts CaptureFacts.






(** X5. In every state of a process, no record of the buffer has
    [proxy-connection] among the headers of its request: the handlers delete
    it from the header object that they forward, which is the one that they
    record. *)
Theorem records_never_carry_proxy_connection `{Runtime} (s : t) (r : Captured) :
  reachable s →
  r ∈ capturedResponses s →
  Req.headers (request r) !! "proxy-connection" = None.
Proof.
  intros (port & insecure & callback & Hrtc). revert r. revert s Hrtc.
  apply (rtc_ind_r (λ s, no_proxy_connection s)).
  - intros r Hr. simpl in Hr. by apply elem_of_nil in Hr.
  - intros s1 s2 _ Hstep Hp. by eapply step_no_proxy_connection.
Qed.

Lemma records_never_carry_proxy_connection_witness :
  let s := server (@handle ReferenceRuntime plain
                     (Sample.post "http://upstream.test/items") []
                     (responded (Sample.ok "application/json")
                        [JsonText.text "{'id':7}"] ended)
                     "2025-01-01T00:00:00.000Z" Sample.server0) in
  headers (Sample.post "http://upstream.test/items") !! "proxy-connection" =
    Some "keep-alive" ∧
  ∃ r, capturedResponses s = [r] ∧
       Req.headers (request r) !! "proxy-connection" = None.
Proof.
  cbn zeta. split; [vm_compute; reflexivity |].
  eexists. split; [vm_compute; reflexivity |].
  apply (@records_never_carry_proxy_connection ReferenceRuntime
           (server (@handle ReferenceRuntime plain
                      (Sample.post "http://upstream.test/items") []
                      (responded (Sample.ok "application/json")
                         [JsonText.text "{'id':7}"] ended)
                      "2025-01-01T00:00:00.000Z" Sample.server0))).
  - eapply reachable_step; [apply (reachable_new 8888 false false) |].
    apply step_handleHttpRequest.
  - vm_compute. apply list_elem_of_here.
Defined.

End ProxyProperties.

(** ** The buffer and the interactive mode *)

Module InteractiveFacts.
Import http ProxyServer BufferFacts HandlerFacts ProcessFacts.

Lemma getResponse_lookup (k : Z) (s : t) :
  (getResponse k s).1 =
  if ((k <? 1) || (Z.of_nat (length (capturedResponses s)) <? k))%Z then None
  else capturedResponses s !! Z.to_nat (k - 1).
Proof. unfold getResponse. by case_match. Qed.

(** Inside the buffer [getResponse] is the lookup; outside it is [null]. *)
Lemma getResponse_inside (k : Z) (s : t) :
  (1 ≤ k ≤ Z.of_nat (length (capturedResponses s)))%Z →
  (getResponse k s).1 = capturedResponses s !! Z.to_nat (k - 1).
Proof.
  intros Hk. rewrite getResponse_lookup. case_match eqn:E; [| done].
  apply orb_true_iff in E as [E | E]; apply Z.ltb_lt in E; lia.
Qed.

Lemma getResponse_outside (k : Z) (s : t) :
  (k < 1 ∨ Z.of_nat (length (capturedResponses s)) < k)%Z →
  (getResponse k s).1 = None.
Proof.
  intros Hk. rewrite getResponse_lookup. case_match eqn:E; [done |].
  apply orb_false_iff in E as [E1 E2]. apply Z.ltb_ge in E1, E2. lia.
Qed.

(** What [forEach] prints: one message for each record, in the order of the
    buffer, with the index of the record. *)
Lemma forEach_console (f : Captured → nat → Console) (l : list Captured) (s : t) :
  console (forEach f l s) = console s ++ imap (λ i r, f r i) l.
Proof.
  unfold forEach.
  assert (∀ (l' : list (nat * Captured)) s0,
            console (fold_left (λ s ri, log (f ri.2 ri.1) s) l' s0) =
            console s0 ++ ((λ ri, f ri.2 ri.1) <$> l')) as Hfold.
  { induction l' as [|x l' IH]; intros s0; simpl; [by rewrite app_nil_r |].
    rewrite IH. simpl. by rewrite <- app_assoc. }
  rewrite Hfold, fmap_imap. done.
Qed.

(** A line of digits: the record that [getResponse] returns for the number
    is analysed, or the number is reported as not available. *)
Lemma rl_on_line_number (trimmed : string) (s : t) :
  all_digits trimmed = true →
  rl_on_line trimmed s =
    match (getResponse (parseInt10 trimmed) s).1 with
    | Some captured => log (Analyzing (Z.to_nat (parseInt10 trimmed)) captured) s
    | None => log (InvalidNumber (length (capturedResponses s))) s
    end.
Proof.
  intros Hd. unfold rl_on_line. rewrite Hd.
  case_match eqn:E.
  - apply andb_true_iff in E as [E1 E2]. apply Z.leb_le in E1. apply Z.ltb_lt in E2.
    rewrite getResponse_inside by lia. unfold analyzeResponse.
    destruct (capturedResponses s !! Z.to_nat (parseInt10 trimmed - 1)) as [c|] eqn:El.
    + replace (Z.to_nat (parseInt10 trimmed - 1) + 1) with (Z.to_nat (parseInt10 trimmed))
        by lia.
      done.
    + apply lookup_ge_None in El. lia.
  - rewrite getResponse_outside; [done |].
    apply andb_false_iff in E as [E | E]; [apply Z.leb_gt in E | apply Z.ltb_ge in E]; lia.
Qed.

End InteractiveFacts.

Module BufferProperties.
Import http ProxyServer BufferFacts HandlerFacts ProcessFacts InteractiveFacts.

(** X6. The numbers of the records after a capture, in a running process.
    While the buffer holds fewer than 100 records every record keeps its
    number and the new record takes the next one.  Once it holds 100, the
    record that had number [k + 1] has number [k] afterwards, the new record
    has number 100, and the record that had number 1 is gone. *)
Theorem numbers_after_an_append `{Runtime} (r : Captured) (s : t) (k : Z) :
  reachable s →
  let n := Z.of_nat (length (capturedResponses s)) in
  let s' := append r s in
  ((n < 100)%Z →
   ((1 ≤ k ≤ n)%Z → (getResponse k s').1 = (getResponse k s).1) ∧
   (getResponse (n + 1) s').1 = Some r) ∧
  (n = 100%Z →
   ((1 ≤ k < 100)%Z → (getResponse k s').1 = (getResponse (k + 1) s).1) ∧
   (getResponse 100 s').1 = Some r ∧
   length (capturedResponses s') = 100).
Proof.
  intros Hr. cbn zeta. pose proof (reachable_bounded s Hr) as [Hlen Hmax]. split.
  - intros Hlt.
    assert (capturedResponses (append r s) = capturedResponses s ++ [r]) as Hc
      by (apply append_below; lia).
    split.
    + intros Hk. rewrite !getResponse_inside by (rewrite ?Hc, ?length_app; simpl; lia).
      rewrite Hc. apply lookup_app_l. lia.
    + rewrite getResponse_inside by (rewrite Hc, length_app; simpl; lia).
      rewrite Hc.
      replace (Z.to_nat (Z.of_nat (length (capturedResponses s)) + 1 - 1))
        with (length (capturedResponses s)) by lia.
      apply list_lookup_middle. done.
  - intros Hfull.
    assert (capturedResponses (append r s) = tail (capturedResponses s ++ [r])) as Hc
      by (apply append_full; lia).
    destruct (capturedResponses s) as [|x l] eqn:El; [simpl in Hfull; lia |].
    simpl in Hc, Hfull.
    assert (length l = 99) as Hl by lia.
    split_and!.
    + intros Hk.
      rewrite !getResponse_inside
        by (rewrite ?Hc, ?El, ?length_app; simpl; lia).
      rewrite Hc, El.
      replace (Z.to_nat (k + 1 - 1)) with (S (Z.to_nat (k - 1))) by lia.
      simpl. apply lookup_app_l. lia.
    + rewrite getResponse_inside by (rewrite Hc, length_app; simpl; lia).
      rewrite Hc. replace (Z.to_nat (100 - 1)) with (length l) by lia.
      apply list_lookup_middle. done.
    + rewrite Hc, length_app. simpl. lia.
Qed.

Lemma numbers_after_an_append_witness :
  let s := Sample.after 100 Sample.server0 in
  let s' := append Sample.record1 s in
  @reachable ReferenceRuntime s ∧
  Z.of_nat (length (capturedResponses s)) = 100%Z ∧
  (getResponse 1 s').1 = (getResponse 2 s).1 ∧
  (getResponse 100 s').1 = Some Sample.record1 ∧
  length (capturedResponses s') = 100.
Proof.
  cbn zeta.
  assert (Z.of_nat (length (capturedResponses (Sample.after 100 Sample.server0))) = 100%Z)
    as Hfull by (vm_compute; reflexivity).
  destruct (@numbers_after_an_append ReferenceRuntime Sample.record1
              (Sample.after 100 Sample.server0) 1 (reachable_after 100))
    as [_ Hat].
  destruct (Hat Hfull) as (Hshift & Hnew & Hlen).
  split_and!; [apply reachable_after | exact Hfull | apply Hshift; lia
              | exact Hnew | exact Hlen].
Defined.

(** X7. After any number of captures in a running process the buffer holds
    the latest records, at most 100 of them, in the order of their arrival:
    what was in the buffer followed by the new records, without the first
    ones beyond 100. *)
Theorem buffer_holds_the_latest_hundred `{Runtime} (rs : list Captured) (s : t) :
  reachable s →
  capturedResponses (appends rs s) =
  drop (length (capturedResponses s ++ rs) - 100) (capturedResponses s ++ rs).
Proof.
  intros Hr. apply appends_keep_the_latest. by apply reachable_bounded.
Qed.

Lemma buffer_holds_the_latest_hundred_witness :
  let old := Sample.record1 in
  let new := {| request := request Sample.record1;
                response := response Sample.record1;
                timestamp := "2025-01-02T00:00:00.000Z" |} in
  @reachable ReferenceRuntime (Sample.after 2 Sample.server0) ∧
  capturedResponses (appends (replicate 99 new) (Sample.after 2 Sample.server0)) =
    old :: replicate 99 new.
Proof.
  cbn zeta. split; [apply reachable_after |].
  etrans; [apply (@buffer_holds_the_latest_hundred ReferenceRuntime); apply reachable_after |].
  vm_compute. reflexivity.
Defined.

(** X8. A number typed in the interactive mode selects what [getResponse]
    returns for it: the record is analysed under that number, and when
    [getResponse] returns [null] the operator is told the numbers
    available.  The buffer is as it was in both cases. *)
Theorem typed_number_selects_what_getResponse_returns (trimmed : string) (s : t) :
  all_digits trimmed = true →
  let n := parseInt10 trimmed in
  rl_on_line trimmed s =
    match (getResponse n s).1 with
    | Some captured => log (Analyzing (Z.to_nat n) captured) s
    | None => log (InvalidNumber (length (capturedResponses s))) s
    end ∧
  capturedResponses (rl_on_line trimmed s) = capturedResponses s.
Proof.
  intros Hd. cbn zeta. rewrite (rl_on_line_number trimmed s Hd).
  split; [done |]. by destruct (getResponse (parseInt10 trimmed) s).1.
Qed.

Lemma typed_number_selects_what_getResponse_returns_witness :
  let s := Sample.after 3 Sample.server0 in
  all_digits "02" = true ∧
  rl_on_line "02" s = log (Analyzing 2 Sample.record1) s ∧
  all_digits "4" = true ∧
  rl_on_line "4" s = log (InvalidNumber 3) s.
Proof.
  cbn zeta.
  destruct (typed_number_selects_what_getResponse_returns "02"
              (Sample.after 3 Sample.server0) eq_refl) as [H2 _].
  destruct (typed_number_selects_what_getResponse_returns "4"
              (Sample.after 3 Sample.server0) eq_refl) as [H4 _].
  split_and!; [reflexivity | | reflexivity |].
  - etrans; [exact H2 |]. vm_compute. reflexivity.
  - etrans; [exact H4 |]. vm_compute. reflexivity.
Defined.

(** X9. Of all the lines typed in the interactive mode only [clear] changes
    the buffer, and it empties it; no line changes the limit or the
    certificate manager or calls the callback, and an empty line does
    nothing at all. *)
Theorem only_clear_changes_the_buffer (trimmed : string) (s : t) :
  capturedResponses (rl_on_line trimmed s) =
    (if String.eqb trimmed "clear" then [] else capturedResponses s) ∧
  maxCapturedResponses (rl_on_line trimmed s) = maxCapturedResponses s ∧
  certManager (rl_on_line trimmed s) = certManager s ∧
  notified (rl_on_line trimmed s) = notified s ∧
  rl_on_line "" s = s.
Proof.
  assert (∀ f l s0, notified (forEach f l s0) = notified s0) as Hfe.
  { intros f l. unfold forEach. generalize (imap (λ i r, (i, r)) l). intros l'.
    induction l' as [|x l' IH]; intros s0; simpl; [done |]. by rewrite IH. }
  assert (notified (listResponses s) = notified s) as Hnl.
  { unfold listResponses. case_match; [done |]. simpl. by rewrite Hfe. }
  unfold rl_on_line, analyzeResponse.
  destruct (all_digits trimmed) eqn:Hd.
  - assert (String.eqb trimmed "clear" = false) as ->.
    { apply String.eqb_neq. intros ->. done. }
    repeat case_match; done.
  - destruct (String.eqb trimmed "list" || String.eqb trimmed "ls") eqn:Hl.
    + assert (String.eqb trimmed "clear" = false) as ->.
      { apply String.eqb_neq. intros ->. done. }
      destruct (quiet_listResponses s) as (-> & -> & ->). done.
    + destruct (String.eqb trimmed "clear") eqn:Hc; [done |].
      repeat case_match; done.
Qed.

(** X10. After [clear], in a running process, the numbering starts again:
    the buffer is empty, every number typed is reported as not available,
    and the next record captured has number 1. *)
Theorem numbering_restarts_after_clear `{Runtime} (s : t) (r : Captured)
    (trimmed : string) :
  reachable s →
  all_digits trimmed = true →
  let s' := rl_on_line "clear" s in
  capturedResponses s' = [] ∧
  rl_on_line trimmed s' = log (InvalidNumber 0) s' ∧
  capturedResponses (append r s') = [r] ∧
  ordinal (append r s') = 1 ∧
  (getResponse 1 (append r s')).1 = Some r.
Proof.
  intros Hr Hd. cbn zeta. pose proof (reachable_bounded s Hr) as [_ Hmax].
  change (rl_on_line "clear" s) with (clear s).
  assert (capturedResponses (append r (clear s)) = [r]) as Hc.
  { rewrite append_below; [done |]. simpl. lia. }
  split_and!; [done | | exact Hc | unfold ordinal; by rewrite Hc |].
  - rewrite (rl_on_line_number trimmed (clear s) Hd).
    rewrite getResponse_outside; [done |]. simpl. lia.
  - rewrite getResponse_inside by (rewrite Hc; simpl; lia). by rewrite Hc.
Qed.

Lemma numbering_restarts_after_clear_witness :
  let s := Sample.after 3 Sample.server0 in
  let s' := rl_on_line "clear" s in
  @reachable ReferenceRuntime s ∧
  all_digits "1" = true ∧
  length (capturedResponses s) = 3 ∧
  capturedResponses s' = [] ∧
  rl_on_line "1" s' = log (InvalidNumber 0) s' ∧
  ordinal (append Sample.record1 s') = 1.
Proof.
  cbn zeta.
  destruct (@numbering_restarts_after_clear ReferenceRuntime
              (Sample.after 3 Sample.server0) Sample.record1 "1"
              (reachable_after 3) eq_refl)
    as (Hempty & Hinvalid & _ & Hone & _).
  split_and!; [apply reachable_after | reflexivity | vm_compute; reflexivity
              | exact Hempty | exact Hinvalid | exact Hone].
Defined.

End BufferProperties.

(** ** CONNECT *)

Module ConnectFacts.
Import http ProxyServer BufferFacts HandlerFacts ProcessFacts InteractiveFacts.









End ConnectFacts.

Module ManagerFacts.
Import http ProxyServer BufferFacts HandlerFacts ProcessFacts InteractiveFacts.

(** [loadOrGenerateCA] always leaves a CA in the manager, and the files of
    the CA hold it; the cache of leaves is not touched. *)
Lemma loadOrGenerateCA_loaded homedir answer env disk m :
  let out := CertificateManager.loadOrGenerateCA homedir answer env disk m in
  ∃ k c,
    CertificateManager.caKey out.1 = Some k ∧
    CertificateManager.caCert out.1 = Some c ∧
    CertificateManager.keyFile out.2 = CertificateManager.Holds k ∧
    CertificateManager.certFile out.2 = CertificateManager.Holds c ∧
    CertificateManager.cache out.1 = CertificateManager.cache m.
Proof.
  cbn zeta. unfold CertificateManager.loadOrGenerateCA.
  destruct (CertificateManager.keyFile disk) as [| |k] eqn:Ek;
    destruct (CertificateManager.certFile disk) as [| |c] eqn:Ec; simpl;
    eexists _, _; split_and!; reflexivity || eassumption.
Qed.

Lemma generateCertForHost_keeps_the_CA hostname env m :
  let m' := (CertificateManager.generateCertForHost hostname env m).2 in
  CertificateManager.caKey m' = CertificateManager.caKey m ∧
  CertificateManager.caCert m' = CertificateManager.caCert m.
Proof.
  cbn zeta. unfold CertificateManager.generateCertForHost.
  destruct (CertificateManager.cache m !! hostname); [done |].
  destruct (CertificateManager.caCert m) eqn:Ec; [| simpl; split; congruence].
  destruct (CertificateManager.caKey m) eqn:Ek; simpl; split; congruence.
Qed.

Lemma forEach_insecure (f : Captured → nat → Console) (l : list Captured) (s : t) :
  insecure (forEach f l s) = insecure s.
Proof.
  unfold forEach. generalize (imap (λ i r, (i, r)) l). intros l'.
  revert s. induction l' as [|x l' IH]; intros s; simpl; [done |]. by rewrite IH.
Qed.

Lemma listResponses_insecure (s : t) : insecure (listResponses s) = insecure s.
Proof. unfold listResponses. case_match; [done |]. simpl. by rewrite forEach_insecure. Qed.

Lemma rl_on_line_insecure (trimmed : string) (s : t) :
  insecure (rl_on_line trimmed s) = insecure s.
Proof.
  unfold rl_on_line, analyzeResponse.
  repeat case_match; try done. apply listResponses_insecure.
Qed.

Lemma append_insecure (r : Captured) (s : t) : insecure (append r s) = insecure s.
Proof. unfold append. simpl. by case_match. Qed.

Section WithRuntime.
Context `{Runtime}.

Lemma capture_insecure https url clientReq requestBody proxyRes responseBody
    responseData now s :
  insecure (capture https url clientReq requestBody proxyRes responseBody
              responseData now s) = insecure s.
Proof.
  unfold capture, notify. cbn zeta. case_match; simpl; apply append_insecure.
Qed.

Lemma handle_insecure h clientReq requestChunks upstream now s :
  insecure (server (handle h clientReq requestChunks upstream now s)) = insecure s.
Proof.
  destruct (handle_cases h clientReq requestChunks upstream now s)
    as [_ | (proxyRes & chunks & responseBody & responseData & s0 & -> & _)].
  - destruct h as [|hostname]; cbn [handle];
      unfold handleHttpRequest, handleHttpsMITM_request, proxyReq_on_error,
        https_proxyReq_on_error, proxyRes_on_end, responseStream_on_end;
      destruct upstream as [message | proxyRes chunks [|message]];
      cbn [writeHead newResponse head server]; repeat case_match;
      rewrite ?capture_insecure; done.
  - destruct (handle_ended h clientReq requestChunks proxyRes chunks now s)
      as (_ & _ & ->).
    destruct h as [|hostname]; cbn zeta;
      unfold proxyRes_on_end, responseStream_on_end; repeat case_match;
      rewrite ?capture_insecure; done.
Qed.

Lemma generateCertForHost_manager_ready hostname env s :
  manager_ready s → manager_ready (generateCertForHost hostname env s).2.
Proof.
  intros Hm. unfold generateCertForHost.
  destruct (certManager s) as [m|] eqn:Em; [| exact Hm].
  destruct (Hm m Em) as (Hi & Hk & Hc & Hn).
  pose proof (generateCertForHost_keeps_the_CA hostname env m) as [Hk' Hc'].
  pose proof (CertFacts.cache_names_step "" m _
                (CertificateManager.step_generateCertForHost "" m hostname env) Hn) as Hn'.
  destruct (CertificateManager.generateCertForHost hostname env m) as [r m'].
  simpl in *. intros m0 [= <-]. by rewrite Hk', Hc'.
Qed.

Lemma step_manager_ready s s' : step s s' → manager_ready s → manager_ready s'.
Proof.
  intros Hstep Hm. destruct Hstep.
  - unfold initialize. destruct (insecure s) eqn:Ei; [| done].
    pose proof (loadOrGenerateCA_loaded homedir answer env disk
                  (CertificateManager.constructor homedir)) as (k & c & Hk & Hc & _ & _ & Hca).
    destruct (CertificateManager.loadOrGenerateCA _ _ _ _ _) as [m disk'].
    simpl in *. intros m0 [= <-]. rewrite Hk, Hc. split_and!; [done | done | done |].
    intros h leaf. rewrite Hca. by rewrite lookup_empty.
  - intros m Em.
    destruct (handle_cases plain clientReq requestChunks upstream now s)
      as [[(_ & _ & Hcm) _] | (? & ? & ? & ? & s0 & _ & _ & _ & _ & _ & (_ & _ & Hcm0) & _ & Hs)].
    + cbn [handle] in Hcm. rewrite Hcm in Em.
      pose proof (handle_insecure plain clientReq requestChunks upstream now s) as Hi.
      cbn [handle] in Hi. rewrite Hi. by apply Hm.
    + pose proof (handle_insecure plain clientReq requestChunks upstream now s) as Hi.
      cbn [handle] in Hi, Hs. rewrite Hi. apply Hm.
      rewrite Hs, capture_certManager, Hcm0 in Em. done.
  - unfold handleHttpsMITM.
    pose proof (generateCertForHost_manager_ready hostname env s Hm) as Hg.
    destruct (generateCertForHost hostname env s) as [[e|certData] s1]; done.
  - by apply generateCertForHost_manager_ready.
  - intros m Em.
    destruct (handle_cases (mitm hostname) clientReq requestChunks upstream now s)
      as [[(_ & _ & Hcm) _] | (? & ? & ? & ? & s0 & _ & _ & _ & _ & _ & (_ & _ & Hcm0) & _ & Hs)].
    + cbn [handle] in Hcm. rewrite Hcm in Em.
      pose proof (handle_insecure (mitm hostname) clientReq requestChunks upstream now s)
        as Hi.
      cbn [handle] in Hi. rewrite Hi. by apply Hm.
    + pose proof (handle_insecure (mitm hostname) clientReq requestChunks upstream now s)
        as Hi.
      cbn [handle] in Hi, Hs. rewrite Hi. apply Hm.
      rewrite Hs, capture_certManager, Hcm0 in Em. done.
  - intros m Em. rewrite rl_on_line_insecure. apply Hm.
    assert (certManager (rl_on_line trimmed s) = certManager s) as <-; [| done].
    unfold rl_on_line, analyzeResponse. repeat case_match; try done.
    by destruct (quiet_listResponses s) as (_ & _ & ->).
  - by rewrite quiet_getResponse.
  - intros m Em. rewrite listResponses_insecure. apply Hm.
    by destruct (quiet_listResponses s) as (_ & _ & <-).
Qed.

(** In every state of a process the manager, if there is one, is ready. *)
Lemma reachable_manager_ready s : reachable s → manager_ready s.
Proof.
  intros (port & insecure & callback & Hrtc). revert s Hrtc.
  apply (rtc_ind_r (λ s, manager_ready s)).
  - intros m Hm. done.
  - intros s1 s2 _ Hstep Hm. by eapply step_manager_ready.
Qed.

End WithRuntime.
End ManagerFacts.

Module ConnectProperties.
Import http ProxyServer BufferFacts HandlerFacts ProcessFacts InteractiveFacts
  ConnectFacts ManagerFacts.

(** X11. [listResponses()] prints the buffer as it is: a notice when it is
    empty; otherwise the count, one entry for each record in the order of the
    buffer with its method, URL, status and time, and the closing hint.  The
    number of an entry is the one [getResponse] takes for that record. *)
Theorem listing_follows_the_buffer (s : t) :
  console (listResponses s) =
    console s ++
    match capturedResponses s with
    | [] => [NoResponses]
    | rs =>
        ListHeader (length rs) ::
        imap (λ idx resp,
                ListEntryTime (idx + 1) (Req.method (request resp))
                  (Req.url (request resp)) (Res.statusCode (response resp))
                  (timestamp resp)) rs ++
        [ListFooter]
    end ∧
  (∀ idx resp,
     capturedResponses s !! idx = Some resp →
     (getResponse (Z.of_nat (idx + 1)) s).1 = Some resp).
Proof.
  split.
  - unfold listResponses. destruct (capturedResponses s) as [|r rs] eqn:E; [done |].
    cbn [length Nat.eqb]. cbn [console log]. rewrite forEach_console.
    cbn [console log capturedResponses]. rewrite E.
    by rewrite <- !app_assoc.
  - intros idx resp Hl. pose proof (lookup_lt_Some _ _ _ Hl) as Hlt.
    rewrite getResponse_inside by lia.
    by replace (Z.to_nat (Z.of_nat (idx + 1) - 1)) with idx by lia.
Qed.

Lemma listing_follows_the_buffer_witness :
  let s := Sample.after 2 Sample.server0 in
  capturedResponses s !! 1 = Some Sample.record1 ∧
  (getResponse 2 s).1 = Some Sample.record1 ∧
  drop (length (console s)) (console (listResponses s)) =
    [ ListHeader 2;
      ListEntryTime 1 "GET" "http://upstream.test/data" 200 "2025-01-01T00:00:00.000Z";
      ListEntryTime 2 "GET" "http://upstream.test/data" 200 "2025-01-01T00:00:00.000Z";
      ListFooter ].
Proof.
  cbn zeta.
  destruct (listing_follows_the_buffer (Sample.after 2 Sample.server0)) as [Hcons Hnum].
  assert (capturedResponses (Sample.after 2 Sample.server0) !! 1 = Some Sample.record1)
    as Hl by (vm_compute; reflexivity).
  split_and!; [exact Hl | exact (Hnum 1 Sample.record1 Hl) |].
  rewrite Hcons, drop_app_length. vm_compute. reflexivity.
Defined.





End ConnectProperties.

(** ** The CA on the files of the machine *)

Module StoreFacts.
Import forge CertificateManager CertFacts.

Lemma append_inv_head (a b c : string) : a +:+ b = a +:+ c → b = c.
Proof.
  induction a as [|x a IH]; [done |]. rewrite !JSFacts.append_cons.
  intros [= Heq]. by apply IH.
Qed.

Lemma key_path_is_not_cert_path (dir : string) :
  path_join dir "ca-key.pem" ≠ path_join dir "ca-cert.pem".
Proof.
  unfold path_join. rewrite ?JSFacts.append_assoc. intros Heq%append_inv_head.
  vm_compute in Heq. discriminate Heq.
Qed.

(** The files of the Desktop directory are not those of the default one. *)
Lemma desktop_is_not_default (homedir a b : string) :
  path_join (path_join (path_join homedir "Desktop") "jojq-certs") a ≠
  path_join (path_join (path_join homedir ".jojq") "certs") b.
Proof.
  unfold path_join. rewrite ?JSFacts.append_assoc. intros Heq%append_inv_head.
  vm_compute in Heq. discriminate Heq.
Qed.

(** The embedding on the files of the machine agrees with the one on the
    two files of the CA. *)
Lemma loadOrGenerateCA_on_files homedir answer env files m :
  let out := Fs.loadOrGenerateCA homedir answer env files m in
  loadOrGenerateCA homedir (JS.trim answer) env (Fs.disk files m) m =
  (out.1, Fs.disk out.2 out.1).
Proof.
  cbn zeta. unfold Fs.loadOrGenerateCA, Fs.generate, loadOrGenerateCA, Fs.disk,
    Fs.existsSync, Fs.privateKeyFromPem, Fs.certificateFromPem, Fs.newCA.
  cbn [keyFile certFile].
  pose proof (key_path_is_not_cert_path
                (promptForCertLocation homedir (JS.trim answer) m)) as Hne.
  destruct (files !! caKeyPath m) as [[k|c0|t0]|] eqn:Ek;
    destruct (files !! caCertPath m) as [[k1|c|t1]|] eqn:Ec;
    cbn [existsSync andb bool_decide decide_rel fst snd caKeyPath caCertPath];
    rewrite ?bool_decide_true by done; rewrite ?bool_decide_false by (by intros [? ?]);
    cbn [andb fst snd caKeyPath caCertPath certDir cache caKey caCert];
    rewrite ?Ek, ?Ec; try reflexivity.
  all: unfold promptForCertLocation in *; cbn [certDir] in *.
  all: f_equal; f_equal;
    [ rewrite lookup_insert_ne by congruence; by rewrite lookup_insert_eq
    | by rewrite lookup_insert_eq ].
Qed.

Lemma loadOrGenerateCA_loads homedir answer env files m k c :
  files !! caKeyPath m = Some (Fs.PrivateKeyPem k) →
  files !! caCertPath m = Some (Fs.CertificatePem c) →
  Fs.loadOrGenerateCA homedir answer env files m = (Fs.with_CA k c m, files).
Proof.
  intros Hk Hc.
  unfold Fs.loadOrGenerateCA, Fs.existsSync, Fs.privateKeyFromPem, Fs.certificateFromPem.
  rewrite Hk, Hc. rewrite !bool_decide_true by done. reflexivity.
Qed.

Lemma loadOrGenerateCA_generates homedir answer env files m :
  Fs.privateKeyFromPem files (caKeyPath m) = None ∨
  Fs.certificateFromPem files (caCertPath m) = None →
  Fs.loadOrGenerateCA homedir answer env files m = Fs.generate homedir answer env files m.
Proof.
  intros Hbad. unfold Fs.loadOrGenerateCA.
  destruct (Fs.existsSync (caKeyPath m) files && Fs.existsSync (caCertPath m) files);
    [| done].
  destruct (Fs.privateKeyFromPem files (caKeyPath m)) as [k|] eqn:Ek; [| done].
  destruct Hbad as [? | Hc]; [done |]. rewrite Hc. reflexivity.
Qed.

(** The two files hold a key and a certificate, or one of them cannot be
    read as what it should hold. *)
Lemma files_cases (files : gmap string Fs.Content) (m : t) :
  (∃ k c, files !! caKeyPath m = Some (Fs.PrivateKeyPem k) ∧
          files !! caCertPath m = Some (Fs.CertificatePem c)) ∨
  (Fs.privateKeyFromPem files (caKeyPath m) = None ∨
   Fs.certificateFromPem files (caCertPath m) = None).
Proof.
  unfold Fs.privateKeyFromPem, Fs.certificateFromPem.
  destruct (files !! caKeyPath m) as [[k|c0|t0]|]; eauto.
  destruct (files !! caCertPath m) as [[k1|c|t1]|]; eauto.
Qed.

End StoreFacts.

Module ManagerInvariants.
Import forge CertificateManager CertFacts StoreFacts.

(** What a call that misses the cache returns is minted for the hostname. *)
Lemma generateCertForHost_minted (hostname : string) (env : Env) (m : t)
    (ca : Certificate) (k : PrivateKey) :
  caCert m = Some ca → caKey m = Some k → cache m !! hostname = None →
  ∃ leaf,
    generateCertForHost hostname env m =
      (inr leaf, set_cache (<[hostname := leaf]> (cache m)) m) ∧
    minted_for hostname leaf.
Proof.
  intros Hca Hk Hmiss.
  destruct (generateCertForHost_miss hostname env m ca k Hca Hk Hmiss)
    as (leaf & Hgen & Hkey & Hpub & _ & Hsubj & _ & Hext & Hnb & Hna & Hsig).
  exists leaf. split; [done |].
  destruct (dnsNames_minted hostname _ Hext) as (Hbc & _ & _ & Hdns).
  unfold minted_for. cbn zeta. split_and!; try done.
  - unfold getExtension. by rewrite Hext.
  - by exists (generateKeyPair env).
  - by exists k.
  - by rewrite Hna, Hnb, setFullYear_year.
Qed.

Lemma loadOrGenerateCA_cache homedir answer env disk m :
  cache (loadOrGenerateCA homedir answer env disk m).1 = cache m.
Proof.
  unfold loadOrGenerateCA.
  destruct (keyFile disk); destruct (certFile disk); done.
Qed.

Lemma loadOrGenerateCA_is_Some homedir answer env disk m :
  is_Some (caKey (loadOrGenerateCA homedir answer env disk m).1) ∧
  is_Some (caCert (loadOrGenerateCA homedir answer env disk m).1).
Proof.
  unfold loadOrGenerateCA.
  destruct (keyFile disk); destruct (certFile disk); simpl; split; done.
Qed.

Lemma step_invariants (homedir : string) (m m' : t) :
  step homedir m m' →
  ca_all_or_nothing m ∧ cache_minted m →
  ca_all_or_nothing m' ∧ cache_minted m'.
Proof.
  intros Hstep [Hca Hm]. destruct Hstep as [m answer env disk | m hostname env].
  - split.
    + right. apply loadOrGenerateCA_is_Some.
    + intros h leaf. rewrite loadOrGenerateCA_cache. apply Hm.
  - unfold generateCertForHost.
    destruct (cache m !! hostname) as [cached|] eqn:Hc; [done |].
    destruct (caCert m) as [ca|] eqn:Eca; [| done].
    destruct (caKey m) as [k|] eqn:Ek; [| done].
    destruct (generateCertForHost_minted hostname env m ca k Eca Ek Hc)
      as (leaf & Hgen & Hminted).
    unfold generateCertForHost in Hgen. rewrite Hc, Eca, Ek in Hgen.
    injection Hgen as Hleaf. cbn [snd]. split.
    + right. simpl. by rewrite Eca, Ek.
    + intros h leaf'. simpl. rewrite Hleaf, lookup_insert. case_decide as Hh.
      * intros [= <-]. by subst h.
      * apply Hm.
Qed.

Lemma reachable_invariants (homedir : string) (m : t) :
  reachable homedir m → ca_all_or_nothing m ∧ cache_minted m.
Proof.
  revert m. apply (rtc_ind_r (λ m, ca_all_or_nothing m ∧ cache_minted m)).
  - split; [by left |]. intros h leaf Hl. simpl in Hl. by rewrite lookup_empty in Hl.
  - intros m1 m2 _ Hstep Hi. by eapply step_invariants.
Qed.

End ManagerInvariants.

Module ManagerProperties.
Import forge CertificateManager CertFacts StoreFacts ManagerInvariants.

(** X14. Whatever the files of the machine hold and whatever the operator
    answers, [loadOrGenerateCA] leaves a CA in the manager, with its key and
    its certificate in the two files that the manager then points at; it
    leaves the cache of leaves and every other file as they were.  When the
    two files already held a key and a certificate, these are the CA, and no
    file is written.  A second call changes nothing. *)
Theorem loadOrGenerateCA_leaves_a_CA (homedir answer answer' : string) (env env' : Env)
    (files : gmap string Fs.Content) (m : t) :
  let out := Fs.loadOrGenerateCA homedir answer env files m in
  ∃ k c,
    caKey out.1 = Some k ∧
    caCert out.1 = Some c ∧
    out.2 !! caKeyPath out.1 = Some (Fs.PrivateKeyPem k) ∧
    out.2 !! caCertPath out.1 = Some (Fs.CertificatePem c) ∧
    cache out.1 = cache m ∧
    (∀ path, path ≠ caKeyPath out.1 → path ≠ caCertPath out.1 →
             out.2 !! path = files !! path) ∧
    match files !! caKeyPath m, files !! caCertPath m with
    | Some (Fs.PrivateKeyPem k0), Some (Fs.CertificatePem c0) =>
        k = k0 ∧ c = c0 ∧ out.2 = files ∧ certDir out.1 = certDir m ∧
        caKeyPath out.1 = caKeyPath m ∧ caCertPath out.1 = caCertPath m
    | _, _ =>
        k = privateKey (generateKeyPair env) ∧ c = Fs.newCA env
    end ∧
    Fs.loadOrGenerateCA homedir answer' env' out.2 out.1 = out.
Proof.
  cbn zeta.
  destruct (files_cases files m) as [(k & c & Hk & Hc) | Hbad].
  - rewrite (loadOrGenerateCA_loads homedir answer env files m k c Hk Hc).
    exists k, c. cbn [fst snd Fs.with_CA caKey caCert caKeyPath caCertPath cache certDir].
    rewrite Hk, Hc. split_and!; try done.
    by rewrite (loadOrGenerateCA_loads homedir answer' env' files (Fs.with_CA k c m) k c).
  - rewrite (loadOrGenerateCA_generates homedir answer env files m Hbad).
    pose proof (key_path_is_not_cert_path
                  (promptForCertLocation homedir (JS.trim answer) m)) as Hne.
    unfold Fs.generate.
    cbn [fst snd caKey caCert caKeyPath caCertPath cache certDir].
    exists (privateKey (generateKeyPair env)), (Fs.newCA env).
    assert (∀ (f : gmap string Fs.Content),
              <[path_join (promptForCertLocation homedir (JS.trim answer) m) "ca-cert.pem" :=
                  Fs.CertificatePem (Fs.newCA env)]>
                (<[path_join (promptForCertLocation homedir (JS.trim answer) m) "ca-key.pem" :=
                     Fs.PrivateKeyPem (privateKey (generateKeyPair env))]> f)
              !! path_join (promptForCertLocation homedir (JS.trim answer) m) "ca-key.pem" =
              Some (Fs.PrivateKeyPem (privateKey (generateKeyPair env)))) as Hkey.
    { intros f. rewrite lookup_insert_ne by congruence. apply lookup_insert_eq. }
    split_and!; [done | done | apply Hkey | apply lookup_insert_eq | done | | |].
    + intros path Hp1 Hp2. by rewrite !lookup_insert_ne by congruence.
    + unfold Fs.privateKeyFromPem, Fs.certificateFromPem in Hbad.
      destruct (files !! caKeyPath m) as [[k0|c0|t0]|]; try done.
      destruct (files !! caCertPath m) as [[k1|c1|t1]|]; try done.
      by destruct Hbad.
    + rewrite (loadOrGenerateCA_loads homedir answer' env' _ _
                 (privateKey (generateKeyPair env)) (Fs.newCA env));
        [reflexivity | apply Hkey | apply lookup_insert_eq].
Qed.



(** X16. From one process to the next.  A CA that a process loaded, or
    generated in the default directory, is the CA of the next process,
    whatever is answered then, and the next process writes no file.  A CA
    generated in the Desktop directory is not looked for by the next process,
    which generates another one, with a new key. *)
Theorem CA_of_the_next_process (homedir answer answer2 : string) (env env2 : Env)
    (files : gmap string Fs.Content) :
  let first := Fs.loadOrGenerateCA homedir answer env files (constructor homedir) in
  let second := Fs.loadOrGenerateCA homedir answer2 env2 first.2 (constructor homedir) in
  (certDir first.1 = certDir (constructor homedir) → second = first) ∧
  (certDir first.1 ≠ certDir (constructor homedir) →
   JS.trim answer = "2" ∧
   caKey second.1 = Some (privateKey (generateKeyPair env2)) ∧
   caCert second.1 = Some (Fs.newCA env2)).
Proof.
  cbn zeta. set (m0 := constructor homedir).
  assert (path_join (path_join homedir "Desktop") "jojq-certs" ≠ certDir m0) as Hdir.
  { unfold m0, constructor, path_join. cbn [certDir].
    rewrite ?JSFacts.append_assoc. intros Heq%append_inv_head.
    vm_compute in Heq. discriminate Heq. }
  destruct (files_cases files m0) as [(k & c & Hk & Hc) | Hbad].
  - rewrite (loadOrGenerateCA_loads homedir answer env files m0 k c Hk Hc).
    cbn [fst snd]. split; [| done]. intros _.
    by rewrite (loadOrGenerateCA_loads homedir answer2 env2 files m0 k c Hk Hc).
  - rewrite (loadOrGenerateCA_generates homedir answer env files m0 Hbad).
    unfold Fs.generate, promptForCertLocation. cbn [fst snd certDir].
    destruct (String.eqb (JS.trim answer) "2") eqn:Ea.
    + split; [done |]. intros _. apply String.eqb_eq in Ea.
      rewrite loadOrGenerateCA_generates; [by split_and! |].
      unfold Fs.privateKeyFromPem, Fs.certificateFromPem in *.
      rewrite !lookup_insert_ne by apply desktop_is_not_default. exact Hbad.
    + split; [| done]. intros _.
      rewrite (loadOrGenerateCA_loads homedir answer2 env2 _ m0
                 (privateKey (generateKeyPair env)) (Fs.newCA env)).
      * reflexivity.
      * rewrite lookup_insert_ne by (symmetry; apply key_path_is_not_cert_path).
        apply lookup_insert_eq.
      * apply lookup_insert_eq.
Qed.

Lemma CA_of_the_next_process_witness :
  let m0 := constructor "/home/op" in
  let first := Fs.loadOrGenerateCA "/home/op" "2" (Sample.env Sample.keys1 Sample.noon)
                 ∅ m0 in
  let second := Fs.loadOrGenerateCA "/home/op" "" (Sample.env Sample.keys2 Sample.noon)
                  first.2 m0 in
  certDir first.1 ≠ certDir m0 ∧
  caKey first.1 = Some (privateKey Sample.keys1) ∧
  caKey second.1 = Some (privateKey Sample.keys2) ∧
  (let first := Fs.loadOrGenerateCA "/home/op" "1" (Sample.env Sample.keys1 Sample.noon)
                  ∅ m0 in
   certDir first.1 = certDir m0 ∧
   Fs.loadOrGenerateCA "/home/op" "2" (Sample.env Sample.keys2 Sample.noon)
     first.2 m0 = first).
Proof.
  cbn zeta.
  assert (certDir (Fs.loadOrGenerateCA "/home/op" "2"
                     (Sample.env Sample.keys1 Sample.noon) ∅ (constructor "/home/op")).1 ≠
          certDir (constructor "/home/op")) as Hdiff.
  { rewrite loadOrGenerateCA_generates
      by (left; unfold Fs.privateKeyFromPem; by rewrite lookup_empty).
    vm_compute. discriminate. }
  assert (certDir (Fs.loadOrGenerateCA "/home/op" "1"
                     (Sample.env Sample.keys1 Sample.noon) ∅ (constructor "/home/op")).1 =
          certDir (constructor "/home/op")) as Hsame.
  { rewrite loadOrGenerateCA_generates
      by (left; unfold Fs.privateKeyFromPem; by rewrite lookup_empty).
    reflexivity. }
  destruct (CA_of_the_next_process "/home/op" "2" "" (Sample.env Sample.keys1 Sample.noon)
              (Sample.env Sample.keys2 Sample.noon) ∅) as [_ Hregen].
  destruct (CA_of_the_next_process "/home/op" "1" "2" (Sample.env Sample.keys1 Sample.noon)
              (Sample.env Sample.keys2 Sample.noon) ∅) as [Hkeep _].
  destruct (Hregen Hdiff) as (_ & Hk2 & _).
  split_and!; [exact Hdiff | | exact Hk2 | exact Hsame | exact (Hkeep Hsame)].
  rewrite loadOrGenerateCA_generates
    by (left; unfold Fs.privateKeyFromPem; by rewrite lookup_empty).
  reflexivity.
Defined.

End ManagerProperties.

(** ** Leaves in a process *)

Module LeafProperties.
Import forge CertificateManager CertFacts StoreFacts ManagerInvariants.

(** X17. In a process, [generateCertForHost] throws exactly when no CA has
    been loaded.  Before [loadOrGenerateCA] the manager has neither key nor
    certificate of a CA and an empty cache, and every call throws a
    TypeError and leaves the manager as it is; afterwards every call returns
    a leaf, which is then the cached one for the hostname, and keeps the
    CA. *)
Theorem generateCertForHost_throws_exactly_without_a_CA (homedir : string) (m : t)
    (hostname : string) (env : Env) :
  reachable homedir m →
  (caCert m = None →
   caKey m = None ∧ cache m = ∅ ∧
   generateCertForHost hostname env m =
     (inl (TypeError "Cannot read properties of undefined"), m)) ∧
  (caCert m ≠ None →
   ∃ leaf m',
     generateCertForHost hostname env m = (inr leaf, m') ∧
     cache m' !! hostname = Some leaf ∧
     caKey m' = caKey m ∧ caCert m' = caCert m).
Proof.
  intros Hr. destruct (reachable_invariants homedir m Hr) as [Hca _]. split.
  - intros Hnone.
    destruct Hca as [(Hk & _ & Hc) | (_ & [c Hc])]; [| congruence].
    split_and!; [done | done |].
    unfold generateCertForHost. rewrite Hc, lookup_empty, Hnone. done.
  - intros Hsome.
    destruct Hca as [(_ & Hc & _) | ([k Hk] & [c Hc])]; [done |].
    destruct (cache m !! hostname) as [cached|] eqn:Ecache.
    + exists cached, m. by rewrite (generateCertForHost_hit hostname env m cached Ecache).
    + destruct (generateCertForHost_miss hostname env m c k Hc Hk Ecache)
        as (leaf & Hgen & _).
      eexists leaf, _. split; [exact Hgen |]. simpl.
      by rewrite lookup_insert_eq.
Qed.

Lemma generateCertForHost_throws_exactly_without_a_CA_witness :
  reachable "/home/op" (constructor "/home/op") ∧
  generateCertForHost "a.test" (Sample.env Sample.keys1 Sample.noon)
    (constructor "/home/op") =
    (inl (TypeError "Cannot read properties of undefined"), constructor "/home/op") ∧
  reachable "/home/op" Sample.manager1 ∧
  ∃ leaf m',
    generateCertForHost "a.test" (Sample.env Sample.keys2 Sample.noon) Sample.manager1 =
      (inr leaf, m') ∧
    cache m' !! "a.test" = Some leaf.
Proof.
  assert (reachable "/home/op" (constructor "/home/op")) as Hr0 by apply rtc_refl.
  destruct (generateCertForHost_throws_exactly_without_a_CA "/home/op"
              (constructor "/home/op") "a.test" (Sample.env Sample.keys1 Sample.noon) Hr0)
    as [Hthrows _].
  destruct (generateCertForHost_throws_exactly_without_a_CA "/home/op"
              Sample.manager1 "a.test" (Sample.env Sample.keys2 Sample.noon)
              reachable_manager1)
    as [_ Hreturns].
  destruct (Hthrows eq_refl) as (_ & _ & Hthrown).
  destruct Hreturns as (leaf & m' & Hgen & Hcached & _); [discriminate |].
  split_and!; [exact Hr0 | exact Hthrown | exact reachable_manager1 |].
  by exists leaf, m'.
Defined.

(** X18. Every leaf that [generateCertForHost] returns in a process, newly
    minted or from the cache, is an end-entity certificate for the hostname
    asked for: its subject is that name, its only DNS name is that name, it
    is no CA and may not sign certificates, it carries the public half of the
    key returned with it, it is signed with SHA-256, and it is valid up to
    the year after its first day. *)
Theorem returned_leaf_is_minted_for_the_host (homedir : string) (m m' : t)
    (hostname : string) (env : Env) (leaf : Leaf) :
  reachable homedir m →
  generateCertForHost hostname env m = (inr leaf, m') →
  minted_for hostname leaf.
Proof.
  intros Hr Hgen.
  assert (reachable homedir m') as Hr'.
  { eapply rtc_r; [exact Hr |].
    replace m' with (generateCertForHost hostname env m).2 by (by rewrite Hgen).
    constructor. }
  destruct (reachable_invariants homedir m' Hr') as [_ Hminted].
  apply Hminted. by eapply generateCertForHost_cached.
Qed.

Lemma returned_leaf_is_minted_for_the_host_witness :
  ∃ leaf m',
    reachable "/home/op" Sample.manager1 ∧
    generateCertForHost "a.test" (Sample.env Sample.keys2 Sample.noon) Sample.manager1 =
      (inr leaf, m') ∧
    minted_for "a.test" leaf.
Proof.
  destruct (generateCertForHost_miss "a.test" (Sample.env Sample.keys2 Sample.noon)
              Sample.manager1 _ _ eq_refl eq_refl eq_refl) as (leaf & Hgen & _).
  eexists leaf, _. split_and!; [exact reachable_manager1 | exact Hgen |].
  exact (returned_leaf_is_minted_for_the_host "/home/op" Sample.manager1 _ "a.test"
           (Sample.env Sample.keys2 Sample.noon) leaf reachable_manager1 Hgen).
Defined.

End LeafProperties.

(** ** Diagnostics *)

Module DiagnosticProperties.
Import http ProxyServer BufferFacts HandlerFacts ProcessFacts.



End DiagnosticProperties.

(** ** The two handlers side by side *)

Module HandlerRelations.
Import http ProxyServer BufferFacts HandlerFacts ProcessFacts CaptureFacts
  InteractiveFacts ManagerFacts.

(** X20. The name that TLS asks for, in a running process in MITM mode:
    [SNICallback] never throws, returns a leaf certificate whose only DNS
    name is the server name asked for, whatever the host of the CONNECT was,
    and leaves the buffer and the messages as they were; a CONNECT for that
    name afterwards is answered under the same leaf. *)
Theorem server_name_gets_its_own_leaf `{Runtime} (servername : string) (port : Z)
    (env env2 : CertificateManager.Env) (s : t) :
  reachable s →
  certManager s ≠ None →
  ∃ leaf s',
    SNICallback servername env s = (inr leaf, s') ∧
    CertificateManager.dnsNames
      (forge.fromPem (CertificateManager.cert leaf)) = [servername] ∧
    capturedResponses s' = capturedResponses s ∧
    console s' = console s ∧
    (handleHttpsMITM servername port env2 s').1 =
      inr (leaf, "HTTP/1.1 200 Connection Established" +:+ CRLF +:+ CRLF).
Proof.
  intros Hr Hsome. pose proof (reachable_manager_ready s Hr) as Hready.
  destruct (certManager s) as [m|] eqn:Em; [| done].
  destruct (Hready m Em) as (_ & [k Hk] & [ca Hca] & Hnames).
  unfold SNICallback, handleHttpsMITM, generateCertForHost. rewrite Em.
  assert (∃ leaf m',
            CertificateManager.generateCertForHost servername env m = (inr leaf, m') ∧
            CertificateManager.cache m' !! servername = Some leaf ∧
            CertificateManager.dnsNames
              (forge.fromPem (CertificateManager.cert leaf)) = [servername])
    as (leaf & m' & Hgen & Hcached & Hdns).
  { destruct (CertificateManager.cache m !! servername) as [cached|] eqn:Ec.
    - exists cached, m. split_and!; [by apply CertFacts.generateCertForHost_hit | done |].
      by apply Hnames.
    - destruct (CertFacts.generateCertForHost_miss servername env m ca k Hca Hk Ec)
        as (leaf & Hgen & _ & _ & _ & _ & _ & Hext & _).
      exists leaf, (CertificateManager.set_cache
                      (<[servername := leaf]> (CertificateManager.cache m)) m).
      split_and!; [done | simpl; apply lookup_insert_eq |].
      by destruct (CertFacts.dnsNames_minted servername _ Hext) as (_ & _ & _ & ?). }
  rewrite Hgen. eexists leaf, _. split; [reflexivity |].
  split_and!; [done | done | done |].
  cbn [certManager set_certManager].
  by rewrite (CertFacts.generateCertForHost_hit servername env2 m' leaf Hcached).
Qed.

Lemma server_name_gets_its_own_leaf_witness :
  let s := (initialize "/home/op" "1" (Sample.env Sample.keys1 Sample.noon)
              Sample.emptyDisk (constructor 8888 true false)).1 in
  @reachable ReferenceRuntime s ∧
  certManager s ≠ None ∧
  ∃ leaf s',
    SNICallback "cdn.example.com" (Sample.env Sample.keys2 Sample.noon) s = (inr leaf, s') ∧
    CertificateManager.dnsNames
      (forge.fromPem (CertificateManager.cert leaf)) = ["cdn.example.com"].
Proof.
  cbn zeta.
  assert (@reachable ReferenceRuntime
            (initialize "/home/op" "1" (Sample.env Sample.keys1 Sample.noon)
               Sample.emptyDisk (constructor 8888 true false)).1) as Hr.
  { eapply reachable_step; [apply (reachable_new 8888 true false) |].
    apply step_initialize. }
  assert (certManager
            (initialize "/home/op" "1" (Sample.env Sample.keys1 Sample.noon)
               Sample.emptyDisk (constructor 8888 true false)).1 ≠ None) as Hm
    by (vm_compute; discriminate).
  destruct (@server_name_gets_its_own_leaf ReferenceRuntime "cdn.example.com" 443
              (Sample.env Sample.keys2 Sample.noon) (Sample.env Sample.keys2 Sample.noon)
              _ Hr Hm) as (leaf & s' & Hsni & Hdns & _).
  split_and!; [exact Hr | exact Hm |]. by exists leaf, s'.
Defined.



End HandlerRelations.
